(** * lt::retry: retry policies and the preemptible retry coordinator

    A shallow embedding of [include/lt/retry/retry-policy.h],
    [include/lt/retry/policies.h] and [include/lt/retry/preemptible.h],
    with the properties of the library stated and proved over it.

    Conventions of the embedding.

    - [int] is the 32-bit signed integer and [std::chrono::microseconds]
      a 64-bit signed tick count.  Both are carried as [Z], and every
      arithmetic operation of the source is followed by the reduction to
      the width of its result type ([to_int], [to_rep]).  A conversion
      to a narrower integer type is modular.  An addition or a
      multiplication whose result does not fit is undefined in C++; the
      model gives it the result of the two's complement machine, which
      wraps around.
    - A policy is a [std::function] from a status to an optional delay.
      Policies may consume randomness and read the clock, and the driver
      functions sleep and wait; these effects are threaded through an
      explicit world [W] (state passing), whose primitives are collected
      in the class [Environment].
    - [std::optional<T>] is [option T]; [std::nullopt] (STOP) is [None]. *)

From Stdlib Require Import ZArith List Bool Lia.
From Stdlib Require String Ascii DecimalString DecimalZ DecimalPos.
Import ListNotations.
Local Open Scope Z_scope.

Set Implicit Arguments.

(** ** Machine integers *)

Definition INT_MAX : Z := 2147483647.
Definition INT_MIN : Z := -2147483648.
Definition INT64_MAX : Z := 9223372036854775807.
Definition INT64_MIN : Z := -9223372036854775808.

(** Reduction of an integer to the signed [bits]-bit range. *)
Definition wrap (bits : Z) (z : Z) : Z :=
  (z + 2 ^ (bits - 1)) mod 2 ^ bits - 2 ^ (bits - 1).

(** Conversion to [int]. *)
Definition to_int (z : Z) : Z := wrap 32 z.

(** Conversion to the representation type of [std::chrono::microseconds]. *)
Definition to_rep (z : Z) : Z := wrap 64 z.

Definition int_range (z : Z) : Prop := INT_MIN <= z <= INT_MAX.
Definition rep_range (z : Z) : Prop := INT64_MIN <= z <= INT64_MAX.

(** A duration in microseconds, as its tick count. *)
Definition microseconds : Type := Z.

(** [operator+], [operator*] and [operator/] of [std::chrono::duration]
    on 64-bit tick counts. *)
Definition us_add (a b : microseconds) : microseconds := to_rep (a + b).
Definition us_mul (a : microseconds) (k : Z) : microseconds := to_rep (a * k).
Definition us_div (a : microseconds) (k : Z) : microseconds := to_rep (Z.quot a k).

(** [static_cast<int>(std::pow(2, n))] for an [int] exponent [n].
    [std::pow] returns the double [2^n], exact for every exponent that
    matters here.  The conversion truncates toward zero, so a negative
    exponent gives 0.  For [n >= 31] the value does not fit an [int]: the
    conversion is then undefined in C++, and the model takes the value
    the x86-64 conversion instruction produces, [INT_MIN]. *)
Definition pow2_int (n : Z) : Z :=
  if n <? 0 then 0
  else if n <? 31 then 2 ^ n
  else INT_MIN.

(** [std::chrono::system_clock] counts in a unit of its own, which the
    implementation chooses; in libstdc++ it is the nanosecond, 1000
    ticks to the microsecond.  Time points are carried as their 64-bit
    tick count. *)
Definition system_clock_ticks_per_microsecond : Z := 1000.

(** [delay + time_point]: the delay is converted to the unit of the
    clock, a 64-bit multiplication, and added to the tick count. *)
Definition time_point_add (delay : microseconds) (time_point : Z) : Z :=
  to_rep (to_rep (delay * system_clock_ticks_per_microsecond) + time_point).

(** ** The effect monad: state passing over the world *)

Definition Eff (W A : Type) : Type := W -> A * W.

Definition ret {W A : Type} (a : A) : Eff W A := fun w => (a, w).

Definition bind {W A B : Type} (c : Eff W A) (k : A -> Eff W B) : Eff W B :=
  fun w => let (a, w') := c w in k a w'.

Declare Scope eff_scope.
Delimit Scope eff_scope with eff.
Notation "x <- c ;; k" := (bind c (fun x => k))
  (at level 61, c at next level, right associativity) : eff_scope.

(** The generators of [policies.h]: every jitter policy declares its own
    [static thread_local std::mt19937]. *)
Inductive Generator : Type :=
| gen_fullJitter
| gen_equalJitter
| gen_fullJitterBackoff
| gen_equalJitterBackoff
| gen_decorrelatedJitterBackoff.

(** The primitives the library calls into. *)
Class Environment (W : Type) : Type := {
  (** [std::chrono::system_clock::now()], in ticks of the clock. *)
  system_clock_now : W -> Z;
  (** [std::this_thread::sleep_for(d)]. *)
  sleep_for : microseconds -> W -> W;
  (** [std::uniform_int_distribution<int>(a, b)(generator)]. *)
  uniform_int_distribution : Generator -> Z -> Z -> W -> Z * W;
  (** [cv.wait_for(lock, d, cond)]: the value of [cond] when the wait
      ends, and the world at that moment. *)
  wait_for : microseconds -> (W -> bool) -> W -> bool * W
}.

(** The contract of the random source: given a range of [int]s, an
    integer within that range. *)
Definition uniform_in_range (W : Type) `{Environment W} : Prop :=
  forall g a b w, int_range a -> int_range b -> a <= b ->
    a <= fst (uniform_int_distribution g a b w) <= b.
Arguments uniform_in_range W {_}.

(** ** retry-policy.h *)

Record RetryStatus : Type := mkRetryStatus {
  iteration_number : Z;
  cumulative_delay : microseconds;
  previous_delay : option microseconds
}.

(** [RetryStatus status{}]: value initialisation. *)
Definition fresh : RetryStatus := mkRetryStatus 0 0 None.

(** The debug rendering of a status. *)
Module Printing.
Import String Ascii.
Local Open Scope string_scope.

(** [stream << n] for an integer [n], on a stream in its default
    formatting state: the decimal digits, after a minus sign when [n] is
    negative. *)
Definition show_int (z : Z) : string :=
  DecimalString.NilZero.string_of_int (Z.to_int z).

(** [operator<<(std::ostream&, const RetryStatus&)]; the stream is the
    text written to it so far. *)
Definition operator_lshift (stream : string) (status : RetryStatus) : string :=
  let stream :=
    stream ++ "{ iteration_number: " ++ show_int (iteration_number status)
           ++ ", cumulative_delay: " ++ show_int (cumulative_delay status)
           ++ "us" in
  let stream :=
    match previous_delay status with
    | Some d => stream ++ ", previous_delay: " ++ show_int d ++ "us"
    | None => stream ++ ", previous_delay: none"
    end in
  stream ++ " }".

(** The characters [show_int] writes: digits and the minus sign. *)
Definition numeric_char (c : ascii) : bool :=
  existsb (Ascii.eqb c)
    ["0"; "1"; "2"; "3"; "4"; "5"; "6"; "7"; "8"; "9"; "-"]%char.

Fixpoint numeric (s : string) : bool :=
  match s with
  | EmptyString => true
  | String c s' => numeric_char c && numeric s'
  end.
End Printing.

Module RetryPolicy.

(** [std::function<std::optional<std::chrono::microseconds>(RetryStatus)>] *)
Definition t (W : Type) : Type := RetryStatus -> Eff W (option microseconds).

Section Core.
Context {W : Type} `{Environment W}.
Local Open Scope eff_scope.

Definition apply (policy : t W) (status : RetryStatus)
  : Eff W (option RetryStatus) :=
  odelay <- policy status ;;
  match odelay with
  | None => ret None
  | Some delay =>
      ret (Some (mkRetryStatus
                   (to_int (iteration_number status + 1))
                   (us_add (cumulative_delay status) delay)
                   (Some delay)))
  end.

Definition applyAndDelay (policy : t W) (status0 : RetryStatus)
  : Eff W (option RetryStatus) :=
  ostatus <- apply policy status0 ;;
  match ostatus with
  | None => ret None
  | Some status =>
      match previous_delay status with
      | Some d => fun w => (Some status, sleep_for d w)
      | None => ret (Some status)
      end
  end.

(** [operator+]: the combination of two policies. *)
Definition combine (x y : t W) : t W :=
  fun status =>
    xresult <- x status ;;
    yresult <- y status ;;
    match xresult, yresult with
    | Some dx, Some dy => ret (Some (Z.max dx dy))
    | _, _ => ret None
    end.

(** The loop of [simulate]: [fuel] is the number of iterations of the
    [for] left to run. *)
Fixpoint simulate_loop (policy : t W) (fuel : nat) (status : RetryStatus)
  (xs : list RetryStatus) : Eff W (list RetryStatus) :=
  match fuel with
  | O => ret xs
  | S fuel' =>
      new_status <- apply policy status ;;
      match new_status with
      | None => ret xs
      | Some status' =>
          simulate_loop policy fuel' status' (xs ++ [status'])
      end
  end.

(** [for (int i = 0; i < n; i++)] runs [n] times, and not at all
    when [n <= 0]. *)
Definition simulate (policy : t W) (n : Z) : Eff W (list RetryStatus) :=
  simulate_loop policy (Z.to_nat n) fresh [].

(** One round of the [while (true)] of [retry]: either the loop
    returns a result, or it goes round again with a new status. *)
Inductive round (T : Type) : Type :=
| Return (result : T)
| Continue (status : RetryStatus).

Definition retry_round {T : Type}
  (policy : t W)
  (shouldRetry : RetryStatus -> T -> Eff W bool)
  (action : RetryStatus -> Eff W T)
  (status : RetryStatus) : Eff W (round T) :=
  result <- action status ;;
  again <- shouldRetry status result ;;
  if negb again then ret (Return result)
  else
    new_status <- applyAndDelay policy status ;;
    match new_status with
    | None => ret (Return result)
    | Some status' => ret (Continue T status')
    end.

(** The loop itself, for at most [fuel] rounds; [None] when the
    rounds are used up before the loop returns. *)
Fixpoint retry_loop {T : Type}
  (policy : t W)
  (shouldRetry : RetryStatus -> T -> Eff W bool)
  (action : RetryStatus -> Eff W T)
  (fuel : nat) (status : RetryStatus) : Eff W (option T) :=
  match fuel with
  | O => ret None
  | S fuel' =>
      r <- retry_round policy shouldRetry action status ;;
      match r with
      | Return result => ret (Some result)
      | Continue _ status' =>
          retry_loop policy shouldRetry action fuel' status'
      end
  end.

Definition retry {T : Type}
  (policy : t W)
  (shouldRetry : RetryStatus -> T -> Eff W bool)
  (action : RetryStatus -> Eff W T)
  (fuel : nat) : Eff W (option T) :=
  retry_loop policy shouldRetry action fuel fresh.

End Core.

End RetryPolicy.

(** ** policies.h *)

Section Policies.
Context {W : Type} `{Environment W}.
Local Open Scope eff_scope.

(** Never retry. *)
Definition neverRetry : RetryPolicy.t W :=
  fun status => ret None.

(** Retry immediately, but only up to [retryLimit] times. *)
Definition limitRetries (retryLimit : Z) : RetryPolicy.t W :=
  fun status =>
    if iteration_number status >=? retryLimit then ret None
    else ret (Some 0).

(** Set a limit on the total time spent retrying. *)
Definition limitCumulativeDelay (cumulativeDelayLimit : microseconds)
  (policy : RetryPolicy.t W) : RetryPolicy.t W :=
  fun status =>
    delay <- policy status ;;
    match delay with
    | Some d =>
        if us_add d (cumulative_delay status) >=? cumulativeDelayLimit
        then ret None
        else ret delay
    | None => ret delay
    end.

(** Set an absolute time point beyond which to stop retrying.  The clock
    is read only when the policy gave a delay ([delay && ...]); the
    delay is added to the time point read, in the unit of the clock; and
    the last statement of the source is [return policy(status);]. *)
Definition limitTimePoint (time_point_limit : Z)
  (policy : RetryPolicy.t W) : RetryPolicy.t W :=
  fun status =>
    delay <- policy status ;;
    match delay with
    | Some d =>
        now <- (fun w => (system_clock_now w, w)) ;;
        if time_point_add d now >? time_point_limit
        then ret None
        else policy status
    | None => policy status
    end.

(** Stop retrying once the delay has reached [delayLimit]. *)
Definition limitRetriesByDelay (delayLimit : microseconds)
  (policy : RetryPolicy.t W) : RetryPolicy.t W :=
  fun status =>
    delay <- policy status ;;
    match delay with
    | Some d => if d >=? delayLimit then ret None else ret delay
    | None => ret delay
    end.

(** Constant delay with unlimited retries. *)
Definition constantDelay (delay : microseconds) : RetryPolicy.t W :=
  fun status => ret (Some delay).

(** Full jitter delay with unlimited retries. *)
Definition fullJitter (max_delay : microseconds) : RetryPolicy.t W :=
  fun status =>
    r <- uniform_int_distribution gen_fullJitter 0 (to_int max_delay) ;;
    ret (Some r).

(** Equal jitter delay with unlimited retries. *)
Definition equalJitter (max_delay : microseconds) : RetryPolicy.t W :=
  fun status =>
    let half_n := us_div max_delay 2 in
    r <- uniform_int_distribution gen_equalJitter 0 (to_int half_n) ;;
    ret (Some (us_add half_n r)).

(** Grow delay exponentially each iteration. *)
Definition exponentialBackoff (base : microseconds) : RetryPolicy.t W :=
  fun status =>
    ret (Some (us_mul base (pow2_int (iteration_number status)))).

(** Full jitter exponential backoff. *)
Definition fullJitterBackoff (base : microseconds) : RetryPolicy.t W :=
  fun status =>
    let n := us_mul base (pow2_int (iteration_number status)) in
    r <- uniform_int_distribution gen_fullJitterBackoff 0 (to_int n) ;;
    ret (Some r).

(** Equal jitter exponential backoff. *)
Definition equalJitterBackoff (base : microseconds) : RetryPolicy.t W :=
  fun status =>
    let half_n :=
      us_div (us_mul base (pow2_int (iteration_number status))) 2 in
    r <- uniform_int_distribution gen_equalJitterBackoff 0 (to_int half_n) ;;
    ret (Some (us_add half_n r)).

(** Decorrelated jitter backoff.  [prev.count() * 3] is a 64-bit product,
    converted to [int] for the distribution. *)
Definition decorrelatedJitterBackoff (base : microseconds) : RetryPolicy.t W :=
  fun status =>
    match previous_delay status with
    | Some prev =>
        r <- uniform_int_distribution gen_decorrelatedJitterBackoff
               0 (to_int (to_rep (prev * 3))) ;;
        ret (Some r)
    | None => ret None
    end.

(** Set an upper bound on the delay for a policy. *)
Definition capDelay (maxDelay : microseconds)
  (policy : RetryPolicy.t W) : RetryPolicy.t W :=
  fun status =>
    delay <- policy status ;;
    match delay with
    | Some d => ret (Some (Z.min maxDelay d))
    | None => ret None
    end.

End Policies.

(** ** preemptible.h *)

Record PreemptibleRetryStatus : Type := mkPreemptibleRetryStatus {
  retry_status :> RetryStatus;
  condition_signalled : bool
}.

(** [PreemptibleRetryStatus()], which is also what [status0 = {}] assigns. *)
Definition fresh_preemptible : PreemptibleRetryStatus :=
  mkPreemptibleRetryStatus fresh false.

Module PreemptibleRetry.

Record t (W : Type) : Type := mk {
  policy_before_ : RetryPolicy.t W;
  policy_after_ : RetryPolicy.t W
}.

Section Coordinator.
Context {W : Type} `{Environment W}.
Local Open Scope eff_scope.

Definition applyAndPreemptibleDelay (self : t W) (cond : W -> bool)
  (status0 : PreemptibleRetryStatus)
  : Eff W (option PreemptibleRetryStatus) :=
  fun w =>
    if cond w then
      let status0 :=
        if condition_signalled status0 then fresh_preemptible else status0 in
      (ostatus <- RetryPolicy.applyAndDelay (policy_after_ self) status0 ;;
       match ostatus with
       | Some status => ret (Some (mkPreemptibleRetryStatus status false))
       | None => ret None
       end) w
    else
      (ostatus <- RetryPolicy.apply (policy_before_ self) status0 ;;
       match ostatus with
       | None => ret None
       | Some status =>
           match previous_delay status with
           | Some d =>
               met <- wait_for d cond ;;
               if met
               then ret (Some (mkPreemptibleRetryStatus status true))
               else ret (Some (mkPreemptibleRetryStatus status false))
           | None => ret (Some (mkPreemptibleRetryStatus status false))
           end
       end) w.

Inductive round (T : Type) : Type :=
| Return (result : T)
| Continue (status : PreemptibleRetryStatus).

Definition retry_round {T : Type} (self : t W) (cond : W -> bool)
  (shouldRetry : PreemptibleRetryStatus -> T -> Eff W bool)
  (action : PreemptibleRetryStatus -> Eff W T)
  (status : PreemptibleRetryStatus) : Eff W (round T) :=
  result <- action status ;;
  again <- shouldRetry status result ;;
  if negb again then ret (Return result)
  else
    new_status <- applyAndPreemptibleDelay self cond status ;;
    match new_status with
    | None => ret (Return result)
    | Some status' => ret (Continue T status')
    end.

Fixpoint retry_loop {T : Type} (self : t W) (cond : W -> bool)
  (shouldRetry : PreemptibleRetryStatus -> T -> Eff W bool)
  (action : PreemptibleRetryStatus -> Eff W T)
  (fuel : nat) (status : PreemptibleRetryStatus) : Eff W (option T) :=
  match fuel with
  | O => ret None
  | S fuel' =>
      r <- retry_round self cond shouldRetry action status ;;
      match r with
      | Return result => ret (Some result)
      | Continue _ status' =>
          retry_loop self cond shouldRetry action fuel' status'
      end
  end.

Definition retry {T : Type} (self : t W) (cond : W -> bool)
  (shouldRetry : PreemptibleRetryStatus -> T -> Eff W bool)
  (action : PreemptibleRetryStatus -> Eff W T)
  (fuel : nat) : Eff W (option T) :=
  retry_loop self cond shouldRetry action fuel fresh_preemptible.

(** The second [for] of [simulate]. *)
Fixpoint simulate_after (self : t W) (fuel : nat) (status : RetryStatus)
  (xs : list PreemptibleRetryStatus) : Eff W (list PreemptibleRetryStatus) :=
  match fuel with
  | O => ret xs
  | S fuel' =>
      new_status <- RetryPolicy.apply (policy_after_ self) status ;;
      match new_status with
      | None => ret xs
      | Some status' =>
          simulate_after self fuel' status'
            (xs ++ [mkPreemptibleRetryStatus status' true])
      end
  end.

(** The first [for] of [simulate]; when it runs to its end the status is
    reset and the second loop follows, and a stop of the first policy
    returns from the function. *)
Fixpoint simulate_before (self : t W) (fuel : nat) (n_after : nat)
  (status : RetryStatus) (xs : list PreemptibleRetryStatus)
  : Eff W (list PreemptibleRetryStatus) :=
  match fuel with
  | O => simulate_after self n_after fresh xs
  | S fuel' =>
      new_status <- RetryPolicy.apply (policy_before_ self) status ;;
      match new_status with
      | None => ret xs
      | Some status' =>
          simulate_before self fuel' n_after status'
            (xs ++ [mkPreemptibleRetryStatus status' false])
      end
  end.

Definition simulate (self : t W) (n_before n_after : Z)
  : Eff W (list PreemptibleRetryStatus) :=
  simulate_before self (Z.to_nat n_before) (Z.to_nat n_after) fresh [].

End Coordinator.

End PreemptibleRetry.

(** ** Observing the evaluations of a policy

    [probe tag policy] behaves as [policy] and records, in a log kept
    beside the world, the status of every evaluation.  The policy itself
    runs on [W] and cannot reach the log. *)

Definition Probed (W : Type) : Type := (list (nat * RetryStatus) * W)%type.

#[export] Instance Probed_Environment {W : Type} `{Environment W}
  : Environment (Probed W) := {
  system_clock_now := fun lw => system_clock_now (snd lw);
  sleep_for := fun d lw => (fst lw, sleep_for d (snd lw));
  uniform_int_distribution := fun g a b lw =>
    let (r, w') := uniform_int_distribution g a b (snd lw) in
    (r, (fst lw, w'));
  wait_for := fun d cond lw =>
    let (met, w') := wait_for d (fun w => cond (fst lw, w)) (snd lw) in
    (met, (fst lw, w'))
}.

Definition probe {W : Type} (tag : nat) (policy : RetryPolicy.t W)
  : RetryPolicy.t (Probed W) :=
  fun status lw =>
    let (r, w') := policy status (snd lw) in
    (r, (fst lw ++ [(tag, status)], w')).

(** The statuses at which the policy probed under [tag] was evaluated,
    in order. *)
Definition evaluations_of (tag : nat) (log : list (nat * RetryStatus))
  : list RetryStatus :=
  map snd (filter (fun e => Nat.eqb (fst e) tag) log).

(** ** A concrete world, for running the definitions

    A clock in whole microseconds, the words the generators will
    produce next, and the instant at which the awaited condition becomes
    true. *)

Record SimWorld : Type := mkSimWorld {
  sim_clock : Z;
  sim_random : list Z;
  sim_signal_at : Z
}.

Definition sim_condition (w : SimWorld) : bool :=
  sim_signal_at w <=? sim_clock w.

(** A raw 32-bit word scaled into the distribution's range [[a, b]]:
    [a] plus the offset [raw mod (b - a + 1)].  The distribution
    requires [a <= b]; a call with [a > b] is undefined in C++ (the
    libstdc++ implementation does not return from it), and the answer
    of this world there, [a], stands for nothing: no statement of the
    development reads a draw on an empty range. *)
Definition sim_uniform (a b : Z) (raw : Z) : Z :=
  if a <=? b then to_int (a + raw mod (b - a + 1)) else a.

#[export] Instance SimWorld_Environment : Environment SimWorld := {
  system_clock_now := fun w =>
    sim_clock w * system_clock_ticks_per_microsecond;
  sleep_for := fun d w =>
    mkSimWorld (sim_clock w + Z.max 0 d) (sim_random w) (sim_signal_at w);
  uniform_int_distribution := fun g a b w =>
    (sim_uniform a b (hd 0 (sim_random w)),
     mkSimWorld (sim_clock w) (tl (sim_random w)) (sim_signal_at w));
  wait_for := fun d cond w =>
    let w' :=
      mkSimWorld (sim_clock w + Z.max 0 d) (sim_random w) (sim_signal_at w) in
    (cond w', w')
}.

(** ** Auxiliary definitions of the proofs *)

(** The status [apply] builds from a status and the delay chosen. *)
Definition next_status (st : RetryStatus) (d : microseconds) : RetryStatus :=
  mkRetryStatus (to_int (iteration_number st + 1))
                (us_add (cumulative_delay st) d)
                (Some d).

(** The statuses [simulate_loop] appends for a policy that computes
    [f status] and has no effect. *)
Fixpoint pure_trace (f : RetryStatus -> option microseconds) (fuel : nat)
  (st : RetryStatus) : list RetryStatus :=
  match fuel with
  | O => []
  | S fuel' =>
      match f st with
      | None => []
      | Some d => next_status st d :: pure_trace f fuel' (next_status st d)
      end
  end.

(** The delay rules of the policies used with [pure_trace]. *)
Definition limitRetries_delay (retryLimit : Z) (st : RetryStatus)
  : option microseconds :=
  if iteration_number st >=? retryLimit then None else Some 0.

Definition exponentialBackoff_delay (base : microseconds) (st : RetryStatus)
  : option microseconds :=
  Some (us_mul base (pow2_int (iteration_number st))).

Definition limited_constant_delay (limit delay : microseconds)
  (st : RetryStatus) : option microseconds :=
  if us_add delay (cumulative_delay st) >=? limit then None else Some delay.

(** A coordinator whose two policies are probed: tag 0 for the policy
    before the condition, tag 1 for the policy after it. *)
Definition probed_retry {W : Type} (before after : RetryPolicy.t W)
  : PreemptibleRetry.t (Probed W) :=
  PreemptibleRetry.mk (probe 0 before) (probe 1 after).

(** The status and world after [k] rounds of [retry] that all went round
    again; [None] when one of them returned. *)
Fixpoint retry_rounds {W T : Type} `{Environment W}
  (policy : RetryPolicy.t W)
  (shouldRetry : RetryStatus -> T -> Eff W bool)
  (action : RetryStatus -> Eff W T)
  (k : nat) (status : RetryStatus) : Eff W (option RetryStatus) :=
  match k with
  | O => ret (Some status)
  | S k' =>
      bind (RetryPolicy.retry_round policy shouldRetry action status)
        (fun r =>
           match r with
           | RetryPolicy.Return _ => ret None
           | RetryPolicy.Continue _ status' =>
               retry_rounds policy shouldRetry action k' status'
           end)
  end.

(** A policy that computes [f status] and leaves the world alone. *)
Definition effect_free {W : Type} (P : RetryPolicy.t W)
  (f : RetryStatus -> option microseconds) : Prop :=
  forall st w, P st w = (f st, w).

(** [PreemptibleRetryStatus(status, signalled)] over a sequence. *)
Definition with_signal (signalled : bool) (xs : list RetryStatus)
  : list PreemptibleRetryStatus :=
  map (fun s => mkPreemptibleRetryStatus s signalled) xs.

(** A policy that stops at every status whose iteration number has
    reached [n]. *)
Definition stops_from {W : Type} (Q : RetryPolicy.t W) (n : Z) : Prop :=
  forall st w, n <= iteration_number st -> fst (Q st w) = None.

(** ** Facts about the machine integers *)

Lemma to_int_small (z : Z) : int_range z -> to_int z = z.
Proof.
  unfold int_range, INT_MIN, INT_MAX, to_int, wrap. intros Hz.
  change (2 ^ (32 - 1)) with 2147483648. change (2 ^ 32) with 4294967296.
  rewrite Z.mod_small; lia.
Qed.

Lemma to_rep_small (z : Z) : rep_range z -> to_rep z = z.
Proof.
  unfold rep_range, INT64_MIN, INT64_MAX, to_rep, wrap. intros Hz.
  change (2 ^ (64 - 1)) with 9223372036854775808.
  change (2 ^ 64) with 18446744073709551616.
  rewrite Z.mod_small; lia.
Qed.

Lemma to_int_range (z : Z) : int_range (to_int z).
Proof.
  unfold int_range, INT_MIN, INT_MAX, to_int, wrap.
  change (2 ^ (32 - 1)) with 2147483648. change (2 ^ 32) with 4294967296.
  pose proof (Z.mod_pos_bound (z + 2147483648) 4294967296 ltac:(lia)). lia.
Qed.

Lemma to_rep_range (z : Z) : rep_range (to_rep z).
Proof.
  unfold rep_range, INT64_MIN, INT64_MAX, to_rep, wrap.
  change (2 ^ (64 - 1)) with 9223372036854775808.
  change (2 ^ 64) with 18446744073709551616.
  pose proof (Z.mod_pos_bound (z + 9223372036854775808)
                18446744073709551616 ltac:(lia)). lia.
Qed.

Lemma pow2_int_small (n : Z) : 0 <= n <= 30 -> pow2_int n = 2 ^ n.
Proof.
  intros Hn. unfold pow2_int.
  destruct (n <? 0) eqn:E0; [apply Z.ltb_lt in E0; lia|].
  destruct (n <? 31) eqn:E1; [reflexivity|apply Z.ltb_ge in E1; lia].
Qed.

(** The concrete random source honours its contract on [int] ranges. *)
Lemma sim_uniform_in_range (a b raw : Z) :
  int_range a -> int_range b -> a <= b ->
  a <= sim_uniform a b raw <= b.
Proof.
  unfold int_range, INT_MIN, INT_MAX, sim_uniform. intros Ha Hb Hab.
  destruct (Z.leb_spec a b) as [_|Hlt]; [|lia].
  pose proof (Z.mod_pos_bound raw (b - a + 1) ltac:(lia)) as Hm.
  rewrite to_int_small; unfold int_range, INT_MIN, INT_MAX; lia.
Qed.

Lemma SimWorld_uniform_in_range : uniform_in_range SimWorld.
Proof.
  intros g a b w Ha Hb Hab. simpl. now apply sim_uniform_in_range.
Qed.

(** ** Evaluations of the wrapped policy by the combinators *)

Ltac run_policy P st w :=
  let r := fresh "r" in
  let w' := fresh "w" in
  let E := fresh "E" in
  destruct (P st w) as [r w'] eqn:E; simpl.

Section Evaluations.
Context {W : Type} `{Environment W}.

Lemma probe_eval (tag : nat) (P : RetryPolicy.t W) st log w :
  probe tag P st (log, w) =
  (fst (P st w), (log ++ [(tag, st)], snd (P st w))).
Proof. unfold probe; simpl. now destruct (P st w). Qed.

Lemma apply_probe (tag : nat) (P : RetryPolicy.t W) st log w :
  RetryPolicy.apply (probe tag P) st (log, w) =
  (fst (RetryPolicy.apply P st w),
   (log ++ [(tag, st)], snd (RetryPolicy.apply P st w))).
Proof.
  unfold RetryPolicy.apply, bind. rewrite probe_eval.
  run_policy P st w. now destruct r.
Qed.

Lemma applyAndDelay_probe (tag : nat) (P : RetryPolicy.t W) st log w :
  RetryPolicy.applyAndDelay (probe tag P) st (log, w) =
  (fst (RetryPolicy.applyAndDelay P st w),
   (log ++ [(tag, st)], snd (RetryPolicy.applyAndDelay P st w))).
Proof.
  unfold RetryPolicy.applyAndDelay, bind. rewrite apply_probe.
  destruct (RetryPolicy.apply P st w) as [[s|] w1]; simpl; [|reflexivity].
  now destruct (previous_delay s).
Qed.

(** [capDelay] evaluates the wrapped policy once and caps its delay. *)
Lemma capDelay_evaluates_once maxDelay (P : RetryPolicy.t W) tag st log w :
  capDelay maxDelay (probe tag P) st (log, w) =
  (option_map (Z.min maxDelay) (fst (P st w)),
   (log ++ [(tag, st)], snd (P st w))).
Proof.
  unfold capDelay, bind. rewrite probe_eval.
  run_policy P st w. now destruct r.
Qed.

(** [limitRetriesByDelay] evaluates the wrapped policy once. *)
Lemma limitRetriesByDelay_evaluates_once delayLimit (P : RetryPolicy.t W)
  tag st log w :
  limitRetriesByDelay delayLimit (probe tag P) st (log, w) =
  (match fst (P st w) with
   | Some d => if d >=? delayLimit then None else Some d
   | None => None
   end,
   (log ++ [(tag, st)], snd (P st w))).
Proof.
  unfold limitRetriesByDelay, bind. rewrite probe_eval.
  run_policy P st w. destruct r as [d|]; [|reflexivity].
  now destruct (d >=? delayLimit).
Qed.

(** [limitCumulativeDelay] evaluates the wrapped policy once. *)
Lemma limitCumulativeDelay_evaluates_once limit (P : RetryPolicy.t W)
  tag st log w :
  limitCumulativeDelay limit (probe tag P) st (log, w) =
  (match fst (P st w) with
   | Some d =>
       if us_add d (cumulative_delay st) >=? limit then None else Some d
   | None => None
   end,
   (log ++ [(tag, st)], snd (P st w))).
Proof.
  unfold limitCumulativeDelay, bind. rewrite probe_eval.
  run_policy P st w. destruct r as [d|]; [|reflexivity].
  now destruct (us_add d (cumulative_delay st) >=? limit).
Qed.

(** [limitTimePoint] stops after one evaluation when the time point
    would be passed. *)
Lemma limitTimePoint_stops_after_one_evaluation limit (P : RetryPolicy.t W)
  tag st log w d w1 :
  P st w = (Some d, w1) ->
  limit < time_point_add d (system_clock_now w1) ->
  limitTimePoint limit (probe tag P) st (log, w) =
  (None, (log ++ [(tag, st)], w1)).
Proof.
  intros E Hlate. unfold limitTimePoint, bind. rewrite probe_eval, E.
  cbn [fst snd system_clock_now Probed_Environment].
  destruct (time_point_add d (system_clock_now w1) >? limit) eqn:G;
    [reflexivity|].
  rewrite Z.gtb_ltb in G. apply Z.ltb_ge in G. lia.
Qed.

(** C1 (the defect of [limitTimePoint]).  Whenever [limitTimePoint]
    does not stop on the time point, one call of the combined policy
    evaluates the wrapped policy twice at the same status: the first
    result only decides whether to stop, and the delay returned is the
    one of the second evaluation, made in the world the first one left.
    The other three wrapping combinators evaluate the wrapped policy
    once ([capDelay_evaluates_once], [limitRetriesByDelay_evaluates_once],
    [limitCumulativeDelay_evaluates_once]). *)
Theorem limitTimePoint_evaluates_wrapped_policy_twice
  limit (P : RetryPolicy.t W) tag st log w r w1 :
  P st w = (r, w1) ->
  (forall d, r = Some d ->
     time_point_add d (system_clock_now w1) <= limit) ->
  limitTimePoint limit (probe tag P) st (log, w) =
  (fst (P st w1), (log ++ [(tag, st); (tag, st)], snd (P st w1))).
Proof.
  intros E Hearly. unfold limitTimePoint, bind. rewrite probe_eval, E.
  cbn [fst snd system_clock_now Probed_Environment].
  destruct r as [d|].
  - cbv beta; cbn [snd].
    destruct (time_point_add d (system_clock_now w1) >? limit) eqn:G.
    + rewrite Z.gtb_ltb in G. apply Z.ltb_lt in G.
      specialize (Hearly d eq_refl). lia.
    + rewrite probe_eval. now rewrite <- app_assoc.
  - rewrite probe_eval. now rewrite <- app_assoc.
Qed.

End Evaluations.

(** A run of C1's theorem: [limitTimePoint(t, fullJitter(100))] at the
    fresh status, with the clock at 0, [t] 1000 microseconds (1000000
    ticks) later, and a generator whose next two draws are 70 and 30.
    The draw of 70 passes the time check, and 30 is returned, after two
    evaluations. *)
Lemma limitTimePoint_evaluates_wrapped_policy_twice_witness :
  limitTimePoint 1000000 (probe 0 (fullJitter 100)) fresh
    ([], mkSimWorld 0 [70; 30] 0) =
  (Some 30, ([(0%nat, fresh); (0%nat, fresh)], mkSimWorld 0 [] 0)).
Proof.
  refine (@limitTimePoint_evaluates_wrapped_policy_twice
            SimWorld _ 1000000 (fullJitter 100) 0%nat fresh []
            (mkSimWorld 0 [70; 30] 0) (Some 70) (mkSimWorld 0 [30] 0)
            eq_refl _).
  intros d E. injection E as <-. vm_compute. discriminate.
Defined.

(** ** The core operations: [apply], [applyAndDelay], [operator+] *)

Section CoreProperties.
Context {W : Type} `{Environment W}.

(** C2 (amended).  If the policy stops at a status, [apply] stops.  If it
    yields a delay [d], and the incremented iteration number fits an
    [int] and the new cumulative delay fits the 64-bit microsecond
    count, then [apply] returns the status whose [iteration_number] is
    the input's plus one, whose [cumulative_delay] is the input's plus
    [d], and whose [previous_delay] is [d]. *)
Theorem apply_advances_status (P : RetryPolicy.t W) st w :
  (forall w', P st w = (None, w') -> RetryPolicy.apply P st w = (None, w'))
  /\
  (forall d w',
     P st w = (Some d, w') ->
     int_range (iteration_number st + 1) ->
     rep_range (cumulative_delay st + d) ->
     RetryPolicy.apply P st w =
     (Some (mkRetryStatus (iteration_number st + 1)
                          (cumulative_delay st + d)
                          (Some d)), w')).
Proof.
  split.
  - intros w' E. unfold RetryPolicy.apply, bind. now rewrite E.
  - intros d w' E Hi Hc. unfold RetryPolicy.apply, bind, ret, us_add.
    rewrite E. now rewrite (to_int_small Hi), (to_rep_small Hc).
Qed.

(** C3.  [combine x y] evaluates [x] and then [y], once each and at the
    status it was called with; it stops if either of them stops, and
    otherwise returns the larger of the two delays. *)
Theorem combine_evaluates_both_and_takes_max (x y : RetryPolicy.t W) st log w :
  let rx := x st w in
  let ry := y st (snd rx) in
  snd (RetryPolicy.combine (probe 0 x) (probe 1 y) st (log, w)) =
    (log ++ [(0%nat, st); (1%nat, st)], snd ry)
  /\ snd (RetryPolicy.combine x y st w) = snd ry
  /\ (fst rx = None \/ fst ry = None ->
      fst (RetryPolicy.combine x y st w) = None)
  /\ (forall dx dy, fst rx = Some dx -> fst ry = Some dy ->
      fst (RetryPolicy.combine x y st w) = Some (Z.max dx dy)).
Proof.
  cbv zeta. unfold RetryPolicy.combine, bind, ret.
  rewrite probe_eval.
  destruct (x st w) as [rx w1]. cbn [fst snd]. rewrite probe_eval.
  destruct (y st w1) as [ry w2]. cbn [fst snd].
  repeat split.
  - rewrite <- app_assoc. now destruct rx, ry.
  - now destruct rx, ry.
  - intros [-> | ->]; [reflexivity | now destruct rx].
  - now intros dx dy -> ->.
Qed.

(** C10.  [applyAndDelay] returns the value [apply] returns: stop exactly
    when [apply] stops, and otherwise the same status.  The sleep shows
    in the world only. *)
Theorem applyAndDelay_returns_what_apply_returns (P : RetryPolicy.t W) st w :
  fst (RetryPolicy.applyAndDelay P st w) = fst (RetryPolicy.apply P st w)
  /\ snd (RetryPolicy.applyAndDelay P st w) =
     match fst (RetryPolicy.apply P st w) with
     | Some status =>
         match previous_delay status with
         | Some d => sleep_for d (snd (RetryPolicy.apply P st w))
         | None => snd (RetryPolicy.apply P st w)
         end
     | None => snd (RetryPolicy.apply P st w)
     end.
Proof.
  unfold RetryPolicy.applyAndDelay, bind.
  destruct (RetryPolicy.apply P st w) as [[s|] w1]; cbn [fst snd].
  - now destruct (previous_delay s).
  - now split.
Qed.

End CoreProperties.

(** C2, as stated, fails where the result does not fit its type: at
    [iteration_number = INT_MAX] the incremented number is [INT_MIN], and
    a cumulative delay of [INT64_MAX] plus one microsecond is
    [INT64_MIN].  In both cases the value the claim names is outside the
    field's type. *)
Lemma apply_overflows_at_type_limits :
  (fst (RetryPolicy.apply (constantDelay 0)
          (mkRetryStatus INT_MAX 0 (Some 0)) (mkSimWorld 0 [] 0))
   = Some (mkRetryStatus INT_MIN 0 (Some 0))
   /\ INT_MIN <> INT_MAX + 1
   /\ ~ int_range (INT_MAX + 1))
  /\
  (fst (RetryPolicy.apply (constantDelay 1)
          (mkRetryStatus 1 INT64_MAX (Some INT64_MAX)) (mkSimWorld 0 [] 0))
   = Some (mkRetryStatus 2 INT64_MIN (Some 1))
   /\ INT64_MIN <> INT64_MAX + 1
   /\ ~ rep_range (INT64_MAX + 1)).
Proof.
  split; (split; [vm_compute; reflexivity | split]).
  - vm_compute. discriminate.
  - unfold int_range, INT_MIN, INT_MAX. lia.
  - vm_compute. discriminate.
  - unfold rep_range, INT64_MIN, INT64_MAX. lia.
Qed.

(** A run of C2's theorem: [constantDelay(100)] applied to the status
    after two retries of 100 microseconds. *)
Lemma apply_advances_status_witness :
  RetryPolicy.apply (constantDelay 100)
    (mkRetryStatus 2 200 (Some 100)) (mkSimWorld 0 [] 0) =
  (Some (mkRetryStatus 3 300 (Some 100)), mkSimWorld 0 [] 0).
Proof.
  refine (proj2 (@apply_advances_status SimWorld (constantDelay 100)
                   (mkRetryStatus 2 200 (Some 100)) (mkSimWorld 0 [] 0))
            100 (mkSimWorld 0 [] 0) eq_refl _ _);
    vm_compute; split; discriminate.
Defined.

(** A run of C3's theorem, with one constant policy and [limitRetries(0)],
    and with two constant policies. *)
Lemma combine_evaluates_both_and_takes_max_witness :
  fst (RetryPolicy.combine (constantDelay 100) (limitRetries 0) fresh
         (mkSimWorld 0 [] 0)) = None
  /\ fst (RetryPolicy.combine (constantDelay 100) (constantDelay 250) fresh
            (mkSimWorld 0 [] 0)) = Some 250.
Proof.
  split.
  - refine (proj1 (proj2 (proj2
      (@combine_evaluates_both_and_takes_max SimWorld
         (constantDelay 100) (limitRetries 0) fresh [] (mkSimWorld 0 [] 0))))
      _).
    right. reflexivity.
  - refine (proj2 (proj2 (proj2
      (@combine_evaluates_both_and_takes_max SimWorld
         (constantDelay 100) (constantDelay 250) fresh [] (mkSimWorld 0 [] 0))))
      100 250 eq_refl eq_refl).
Defined.

(** ** [simulate] on policies that leave the world alone *)

Section Simulate.
Context {W : Type}.

Lemma simulate_loop_pure (P : RetryPolicy.t W) f :
  (forall st w, P st w = (f st, w)) ->
  forall fuel st xs w,
    RetryPolicy.simulate_loop P fuel st xs w = (xs ++ pure_trace f fuel st, w).
Proof.
  intros HP. induction fuel as [|fuel IH]; intros st xs w;
    cbn [RetryPolicy.simulate_loop pure_trace].
  - unfold ret. now rewrite app_nil_r.
  - unfold bind at 1. unfold RetryPolicy.apply, bind at 1. rewrite HP.
    destruct (f st) as [d|]; unfold ret at 1.
    + fold (next_status st d). rewrite IH. now rewrite <- app_assoc.
    + unfold ret. now rewrite app_nil_r.
Qed.

Lemma simulate_pure (P : RetryPolicy.t W) f :
  (forall st w, P st w = (f st, w)) ->
  forall n w,
    RetryPolicy.simulate P n w = (pure_trace f (Z.to_nat n) fresh, w).
Proof.
  intros HP n w. unfold RetryPolicy.simulate.
  now rewrite (simulate_loop_pure P f HP).
Qed.

End Simulate.

(** *** [limitRetries] *)

Lemma limitRetries_pure (W : Type) (n : Z) (st : RetryStatus) (w : W) :
  limitRetries n st w = (limitRetries_delay n st, w).
Proof.
  unfold limitRetries, limitRetries_delay.
  now destruct (iteration_number st >=? n).
Qed.

Lemma limitRetries_trace (n : Z) :
  n <= INT_MAX ->
  forall (m fuel : nat) (j : Z) prev,
    0 <= j -> j + Z.of_nat m = n -> (m <= fuel)%nat ->
    pure_trace (limitRetries_delay n) fuel (mkRetryStatus j 0 prev) =
    map (fun k => mkRetryStatus (j + Z.of_nat k) 0 (Some 0)) (seq 1 m).
Proof.
  intros Hn. induction m as [|m IH]; intros fuel j prev Hj Hjm Hfuel.
  - destruct fuel as [|fuel]; [reflexivity|]. simpl.
    unfold limitRetries_delay. simpl.
    destruct (j >=? n) eqn:G; [reflexivity|].
    rewrite Z.geb_leb in G. apply Z.leb_gt in G. lia.
  - destruct fuel as [|fuel]; [lia|].
    cbn [pure_trace]. unfold limitRetries_delay at 1. cbn [iteration_number].
    destruct (j >=? n) eqn:G.
    { rewrite Z.geb_leb in G. apply Z.leb_le in G. lia. }
    assert (Hnext : next_status (mkRetryStatus j 0 prev) 0 =
                    mkRetryStatus (j + 1) 0 (Some 0)).
    { unfold next_status. cbn [iteration_number cumulative_delay].
      rewrite to_int_small by (unfold int_range, INT_MIN, INT_MAX in *; lia).
      reflexivity. }
    rewrite Hnext, (@IH fuel (j + 1) (Some 0)) by lia.
    cbn [seq map]. f_equal.
    rewrite <- (seq_shift m 1), map_map.
    apply map_ext. intros k. f_equal. lia.
Qed.

(** C5.  For an [int] [n >= 0], [limitRetries(n).simulate(n+5)] is a
    sequence of length [n] whose [k]-th status, [k = 1..n], has
    [iteration_number = k] and [previous_delay = 0] (and no delay
    accumulated). *)
Theorem limitRetries_simulate (W : Type) (n : Z) (w : W) :
  0 <= n <= INT_MAX ->
  let xs := fst (RetryPolicy.simulate (limitRetries n) (n + 5) w) in
  Z.of_nat (length xs) = n
  /\ forall k, 1 <= k <= n ->
       nth_error xs (Z.to_nat (k - 1)) = Some (mkRetryStatus k 0 (Some 0)).
Proof.
  intros Hn xs.
  assert (Hxs : xs = map (fun k => mkRetryStatus (Z.of_nat k) 0 (Some 0))
                         (seq 1 (Z.to_nat n))).
  { subst xs. rewrite (simulate_pure (limitRetries n) (limitRetries_delay n))
      by apply limitRetries_pure.
    cbn [fst]. unfold fresh.
    rewrite (@limitRetries_trace n (proj2 Hn) (Z.to_nat n)
               (Z.to_nat (n + 5)) 0 None) by lia.
    apply map_ext. intros k. f_equal. }
  split.
  - rewrite Hxs, length_map, length_seq. lia.
  - intros k Hk. rewrite Hxs, nth_error_map, nth_error_seq.
    destruct (Nat.ltb_spec (Z.to_nat (k - 1)) (Z.to_nat n)) as [_|Hge]; [|lia].
    cbn [option_map]. do 2 f_equal. lia.
Qed.

(** A run of C5's theorem at [n = 3]: [limitRetries(3).simulate(8)]. *)
Lemma limitRetries_simulate_witness :
  Z.of_nat (length (fst (RetryPolicy.simulate (limitRetries 3) (3 + 5)
                           (mkSimWorld 0 [] 0)))) = 3
  /\ forall k, 1 <= k <= 3 ->
       nth_error (fst (RetryPolicy.simulate (limitRetries 3) (3 + 5)
                         (mkSimWorld 0 [] 0)))
                 (Z.to_nat (k - 1))
       = Some (mkRetryStatus k 0 (Some 0)).
Proof.
  apply (@limitRetries_simulate SimWorld 3 (mkSimWorld 0 [] 0)).
  unfold INT_MAX. lia.
Defined.

(** *** [exponentialBackoff] *)

Lemma exponentialBackoff_trace (base : microseconds) :
  forall (i fuel : nat) (st : RetryStatus),
    (i < fuel)%nat ->
    0 <= iteration_number st ->
    iteration_number st + Z.of_nat i < INT_MAX ->
    exists s,
      nth_error (pure_trace (exponentialBackoff_delay base) fuel st) i = Some s
      /\ iteration_number s = iteration_number st + Z.of_nat i + 1
      /\ previous_delay s =
         Some (us_mul base (pow2_int (iteration_number st + Z.of_nat i))).
Proof.
  induction i as [|i IH]; intros fuel st Hfuel H0 Hmax;
    (destruct fuel as [|fuel]; [lia|]); cbn [pure_trace exponentialBackoff_delay].
  - eexists. split; [reflexivity|]. cbn [next_status iteration_number previous_delay].
    unfold next_status; cbn [iteration_number previous_delay].
    rewrite to_int_small by (unfold int_range, INT_MIN, INT_MAX in *; lia).
    rewrite Z.add_0_r. now split.
  - cbn [nth_error].
    destruct (IH fuel
                (next_status st (us_mul base (pow2_int (iteration_number st)))))
      as (s & Hs & Hi & Hd).
    + lia.
    + unfold next_status; cbn [iteration_number].
      rewrite to_int_small by (unfold int_range, INT_MIN, INT_MAX in *; lia).
      lia.
    + unfold next_status; cbn [iteration_number].
      rewrite to_int_small by (unfold int_range, INT_MIN, INT_MAX in *; lia).
      lia.
    + exists s. split; [exact Hs|].
      unfold next_status in Hi, Hd; cbn [iteration_number] in Hi, Hd.
      rewrite to_int_small in Hi, Hd
        by (unfold int_range, INT_MIN, INT_MAX in *; lia).
      split; [lia|]. rewrite Hd. do 3 f_equal. lia.
Qed.

(** C4 (amended).  For [0 <= i <= 30] and [i < k], and a [base] such
    that [base * 2^i] fits the 64-bit microsecond count, the [i]-th
    status (counting from 0) of [exponentialBackoff(base).simulate(k)]
    exists, has [iteration_number = i + 1] and has
    [previous_delay = base * 2^i]. *)
Theorem exponentialBackoff_simulate (W : Type) (base : microseconds)
  (k i : Z) (w : W) :
  0 <= i < k ->
  i <= 30 ->
  rep_range (base * 2 ^ i) ->
  exists st,
    nth_error (fst (RetryPolicy.simulate (exponentialBackoff base) k w))
              (Z.to_nat i) = Some st
    /\ iteration_number st = i + 1
    /\ previous_delay st = Some (base * 2 ^ i).
Proof.
  intros Hik Hi Hrep.
  rewrite (simulate_pure (exponentialBackoff base)
             (exponentialBackoff_delay base)) by reflexivity.
  cbn [fst].
  destruct (@exponentialBackoff_trace base (Z.to_nat i) (Z.to_nat k) fresh)
    as (s & Hs & Hit & Hd).
  - lia.
  - simpl. lia.
  - simpl. unfold INT_MAX. lia.
  - exists s. split; [exact Hs|]. cbn [fresh iteration_number] in Hit, Hd.
    rewrite Z.add_0_l, Z2Nat.id in Hit, Hd by lia.
    split; [exact Hit|]. rewrite Hd. unfold us_mul.
    rewrite pow2_int_small by lia. now rewrite to_rep_small.
Qed.

(** C4, as stated, fails from [i = 31] on: the power of two no longer
    fits the [int] it is converted to, and the status of index 31 of
    [exponentialBackoff(1).simulate(32)] carries a negative delay;
    whatever [int] the conversion gives, the delay is not [2^31].  It
    also fails where [base * 2^i] leaves the 64-bit range: with
    [base = 2^62] the status of index 1 carries [INT64_MIN]. *)
Lemma exponentialBackoff_overflows_at_31 :
  (option_map (fun st => (iteration_number st, previous_delay st))
     (nth_error (fst (RetryPolicy.simulate (exponentialBackoff 1) 32
                        (mkSimWorld 0 [] 0))) 31)
   = Some (32, Some (-2147483648))
   /\ -2147483648 <> 1 * 2 ^ 31
   /\ forall v, int_range v -> us_mul 1 v <> 1 * 2 ^ 31)
  /\
  (option_map (fun st => (iteration_number st, previous_delay st))
     (nth_error (fst (RetryPolicy.simulate
                        (exponentialBackoff 4611686018427387904) 2
                        (mkSimWorld 0 [] 0))) 1)
   = Some (2, Some INT64_MIN)
   /\ INT64_MIN <> 4611686018427387904 * 2 ^ 1).
Proof.
  split; (split; [vm_compute; reflexivity|]).
  - split; [vm_compute; discriminate|].
    intros v Hv. unfold us_mul. rewrite Z.mul_1_l.
    rewrite to_rep_small
      by (unfold rep_range, int_range, INT64_MIN, INT64_MAX, INT_MIN, INT_MAX
            in *; lia).
    unfold int_range, INT_MIN, INT_MAX in Hv. lia.
  - vm_compute. discriminate.
Qed.

(** A run of C4's theorem: the status of index 3 of
    [exponentialBackoff(10).simulate(5)]. *)
Lemma exponentialBackoff_simulate_witness :
  exists st,
    nth_error (fst (RetryPolicy.simulate (exponentialBackoff 10) 5
                      (mkSimWorld 0 [] 0))) (Z.to_nat 3) = Some st
    /\ iteration_number st = 3 + 1
    /\ previous_delay st = Some (10 * 2 ^ 3).
Proof.
  apply (@exponentialBackoff_simulate SimWorld 10 5 3 (mkSimWorld 0 [] 0)).
  - lia.
  - lia.
  - vm_compute. split; discriminate.
Defined.

(** *** [limitCumulativeDelay] *)

Section CumulativeDelay.
Context {W : Type}.

Lemma limitCumulativeDelay_constantDelay_pure limit delay st (w : W) :
  limitCumulativeDelay limit (constantDelay delay) st w =
  (limited_constant_delay limit delay st, w).
Proof.
  unfold limitCumulativeDelay, constantDelay, limited_constant_delay, bind, ret.
  now destruct (us_add delay (cumulative_delay st) >=? limit).
Qed.

(** C6 (amended).  [limitCumulativeDelay(limit, P)] stops when [P]
    stops; when [P] yields a delay [d] whose sum with the cumulative
    delay fits the 64-bit microsecond count, it stops if
    [d + cumulative_delay >= limit] and returns [d] otherwise.
    [limitCumulativeDelay(250, constantDelay(100)).simulate(10)] yields
    exactly two statuses, with cumulative delays 100 and 200. *)
Theorem limitCumulativeDelay_rule (limit : microseconds)
  (P : RetryPolicy.t W) st (w : W) :
  (forall w', P st w = (None, w') ->
     limitCumulativeDelay limit P st w = (None, w'))
  /\ (forall d w',
        P st w = (Some d, w') ->
        rep_range (d + cumulative_delay st) ->
        (limit <= d + cumulative_delay st ->
           limitCumulativeDelay limit P st w = (None, w'))
        /\ (d + cumulative_delay st < limit ->
           limitCumulativeDelay limit P st w = (Some d, w')))
  /\ fst (RetryPolicy.simulate (limitCumulativeDelay 250 (constantDelay 100))
            10 w)
     = [mkRetryStatus 1 100 (Some 100); mkRetryStatus 2 200 (Some 100)].
Proof.
  split; [|split].
  - intros w' E. unfold limitCumulativeDelay, bind. now rewrite E.
  - intros d w' E Hrep. unfold limitCumulativeDelay, bind, us_add.
    rewrite E, (to_rep_small Hrep).
    destruct (d + cumulative_delay st >=? limit) eqn:G;
      rewrite Z.geb_leb in G;
      [apply Z.leb_le in G | apply Z.leb_gt in G];
      split; intros; (reflexivity || lia).
  - rewrite (simulate_pure _ (limited_constant_delay 250 100))
      by apply limitCumulativeDelay_constantDelay_pure.
    reflexivity.
Qed.

End CumulativeDelay.

(** C6, as stated, fails where the sum leaves the 64-bit range: with a
    limit of 0, a wrapped delay of [INT64_MAX] and one microsecond
    accumulated, the sum is not below the limit, yet the combined policy
    returns the delay (the 64-bit sum is [INT64_MIN]). *)
Lemma limitCumulativeDelay_sum_overflows :
  limitCumulativeDelay 0 (constantDelay INT64_MAX)
    (mkRetryStatus 1 1 (Some 1)) (mkSimWorld 0 [] 0)
  = (Some INT64_MAX, mkSimWorld 0 [] 0)
  /\ 0 <= INT64_MAX + 1.
Proof. split; [vm_compute; reflexivity | unfold INT64_MAX; lia]. Qed.

(** A run of C6's theorem: [limitCumulativeDelay(250, constantDelay(100))]
    at the statuses with 100 and with 200 microseconds accumulated, and
    the simulation of ten steps. *)
Lemma limitCumulativeDelay_rule_witness :
  limitCumulativeDelay 250 (constantDelay 100)
    (mkRetryStatus 1 100 (Some 100)) (mkSimWorld 0 [] 0)
  = (Some 100, mkSimWorld 0 [] 0)
  /\ limitCumulativeDelay 250 (constantDelay 100)
       (mkRetryStatus 2 200 (Some 100)) (mkSimWorld 0 [] 0)
     = (None, mkSimWorld 0 [] 0)
  /\ fst (RetryPolicy.simulate (limitCumulativeDelay 250 (constantDelay 100))
            10 (mkSimWorld 0 [] 0))
     = [mkRetryStatus 1 100 (Some 100); mkRetryStatus 2 200 (Some 100)].
Proof.
  split; [|split].
  - refine (proj2 (proj1 (proj2
      (@limitCumulativeDelay_rule SimWorld 250 (constantDelay 100)
         (mkRetryStatus 1 100 (Some 100)) (mkSimWorld 0 [] 0)))
      100 (mkSimWorld 0 [] 0) eq_refl _) _).
    + vm_compute. split; discriminate.
    + simpl. lia.
  - refine (proj1 (proj1 (proj2
      (@limitCumulativeDelay_rule SimWorld 250 (constantDelay 100)
         (mkRetryStatus 2 200 (Some 100)) (mkSimWorld 0 [] 0)))
      100 (mkSimWorld 0 [] 0) eq_refl _) _).
    + vm_compute. split; discriminate.
    + simpl. lia.
  - exact (proj2 (proj2
      (@limitCumulativeDelay_rule SimWorld 250 (constantDelay 100)
         fresh (mkSimWorld 0 [] 0)))).
Defined.

(** ** [decorrelatedJitterBackoff] *)

(** X26.  Assuming the random source returns an integer within the
    range it is given: [decorrelatedJitterBackoff(base)] stops at a
    status with no [previous_delay]; at a status with
    [previous_delay = p], where [0 <= p] and [3p] fits an [int], it
    returns a delay in the interval [[0, 3p]]. *)
Theorem decorrelatedJitterBackoff_bounds (W : Type) `{Environment W}
  (base : microseconds) (st : RetryStatus) (w : W) :
  uniform_in_range W ->
  (previous_delay st = None ->
     fst (decorrelatedJitterBackoff base st w) = None)
  /\ (forall p, previous_delay st = Some p ->
        0 <= p -> 3 * p <= INT_MAX ->
        exists d, fst (decorrelatedJitterBackoff base st w) = Some d
                  /\ 0 <= d <= 3 * p).
Proof.
  intros Hsrc. unfold decorrelatedJitterBackoff. split.
  - now intros ->.
  - intros p -> Hp H3p. unfold bind.
    assert (Hrange : int_range (p * 3))
      by (unfold int_range, INT_MIN, INT_MAX in *; lia).
    assert (Hrep : rep_range (p * 3))
      by (unfold rep_range, INT64_MIN, INT64_MAX, INT_MAX in *; lia).
    rewrite (to_rep_small Hrep), (to_int_small Hrange).
    pose proof (Hsrc gen_decorrelatedJitterBackoff 0 (p * 3) w) as Hd.
    destruct (uniform_int_distribution gen_decorrelatedJitterBackoff
                0 (p * 3) w) as [d w'].
    exists d. split; [reflexivity|]. cbn [fst] in Hd.
    assert (0 <= d <= p * 3).
    { apply Hd; [unfold int_range, INT_MIN, INT_MAX; lia | exact Hrange | lia]. }
    lia.
Qed.

(** C8 (the defect of [decorrelatedJitterBackoff]).  The upper bound
    of the draw is the 64-bit product [prev.count() * 3] converted to
    the [int] that [std::uniform_int_distribution<int>] takes.  Once
    [3p] exceeds [INT_MAX] the bound handed over is not [3p]: for
    [INT_MAX < 3p < 2^32] it is [3p - 2^32], a negative number.  The
    distribution is then called on the empty range [[0, 3p - 2^32]],
    outside its precondition [a <= b] and outside the contract of the
    random source: nothing confines the draw to [[0, 3p]] any more. *)
Theorem decorrelatedJitterBackoff_hands_negative_bound
  (W : Type) `{Environment W}
  (base : microseconds) (st : RetryStatus) (p : microseconds) (w : W) :
  previous_delay st = Some p ->
  INT_MAX < 3 * p < 2 ^ 32 ->
  decorrelatedJitterBackoff base st w =
    (let (r, w') :=
       uniform_int_distribution gen_decorrelatedJitterBackoff
         0 (3 * p - 2 ^ 32) w in
     (Some r, w'))
  /\ 3 * p - 2 ^ 32 < 0.
Proof.
  intros Hp H3p. unfold microseconds in *.
  change (2 ^ 32) with 4294967296 in *. unfold INT_MAX in H3p.
  split; [|lia].
  unfold decorrelatedJitterBackoff, bind, ret. rewrite Hp.
  rewrite to_rep_small
    by (unfold rep_range, INT64_MIN, INT64_MAX; lia).
  assert (Hwrap : to_int (p * 3) = 3 * p - 4294967296).
  { unfold to_int, wrap.
    change (2 ^ (32 - 1)) with 2147483648. change (2 ^ 32) with 4294967296.
    rewrite <- (Z.mod_unique (p * 3 + 2147483648) 4294967296 1
                  (p * 3 - 2147483648)) by lia.
    lia. }
  now rewrite Hwrap.
Qed.

(** A run of C8's theorem: a previous delay of 715827883 microseconds,
    just under twelve minutes.  [3p = 2147483649], and the distribution
    is called on the range [[0, -2147483647]]. *)
Lemma decorrelatedJitterBackoff_hands_negative_bound_witness :
  decorrelatedJitterBackoff 10
    (mkRetryStatus 1 715827883 (Some 715827883)) (mkSimWorld 0 [7] 0)
  = (let (r, w') :=
       uniform_int_distribution gen_decorrelatedJitterBackoff
         0 (-2147483647) (mkSimWorld 0 [7] 0) in
     (Some r, w'))
  /\ -2147483647 < 0.
Proof.
  refine (@decorrelatedJitterBackoff_hands_negative_bound SimWorld _ 10
            (mkRetryStatus 1 715827883 (Some 715827883)) 715827883
            (mkSimWorld 0 [7] 0) eq_refl _).
  unfold INT_MAX. change (2 ^ 32) with 4294967296. lia.
Defined.

(** A run of X26's theorem: a previous delay of 100 microseconds and a
    generator whose next word is 1234567. *)
Lemma decorrelatedJitterBackoff_bounds_witness :
  exists d,
    fst (decorrelatedJitterBackoff 10 (mkRetryStatus 1 100 (Some 100))
           (mkSimWorld 0 [1234567] 0)) = Some d
    /\ 0 <= d <= 3 * 100.
Proof.
  refine (proj2 (@decorrelatedJitterBackoff_bounds SimWorld _ 10
                   (mkRetryStatus 1 100 (Some 100))
                   (mkSimWorld 0 [1234567] 0) SimWorld_uniform_in_range)
            100 eq_refl _ _).
  - lia.
  - unfold INT_MAX. lia.
Defined.

(** ** The [retry] loop *)

Section Retry.
Context {W : Type} `{Environment W} {T : Type}.
Variable policy : RetryPolicy.t W.
Variable shouldRetry : RetryStatus -> T -> Eff W bool.
Variable action : RetryStatus -> Eff W T.

Lemma retry_loop_after_rounds :
  forall k st0 w0 st w,
    retry_rounds policy shouldRetry action k st0 w0 = (Some st, w) ->
    forall fuel,
      RetryPolicy.retry_loop policy shouldRetry action (k + fuel) st0 w0 =
      RetryPolicy.retry_loop policy shouldRetry action fuel st w.
Proof.
  induction k as [|k IH]; intros st0 w0 st w Hk fuel.
  - cbn in Hk. unfold ret in Hk. now inversion Hk.
  - cbn [retry_rounds] in Hk. cbn [Nat.add RetryPolicy.retry_loop].
    unfold bind in *.
    destruct (RetryPolicy.retry_round policy shouldRetry action st0 w0)
      as [[result|st1] w1].
    + discriminate Hk.
    + now apply IH.
Qed.

Lemma applyAndDelay_stops st w :
  fst (policy st w) = None ->
  RetryPolicy.applyAndDelay policy st w = (None, snd (policy st w)).
Proof.
  unfold RetryPolicy.applyAndDelay, RetryPolicy.apply, bind.
  destruct (policy st w) as [r w']. cbn [fst snd]. now intros ->.
Qed.

(** C9.  Suppose [k] rounds of the loop went round again and reached the
    status [st], and in the next round the action produces [result].
    If [shouldRetry] then answers false, or the policy stops, [retry]
    returns [result] itself, for every number of rounds allowed beyond
    [k]; and when [shouldRetry] answers false it returns at once: the
    world is the one [shouldRetry] left, the policy is not consulted and
    nothing is slept. *)
Theorem retry_returns_last_action_result
  (k : nat) (w0 : W) (st : RetryStatus) (w : W)
  (result : T) (w1 : W) (again : bool) (w2 : W) :
  retry_rounds policy shouldRetry action k fresh w0 = (Some st, w) ->
  action st w = (result, w1) ->
  shouldRetry st result w1 = (again, w2) ->
  again = false \/ fst (policy st w2) = None ->
  forall fuel, (k < fuel)%nat ->
    fst (RetryPolicy.retry policy shouldRetry action fuel w0) = Some result
    /\ (again = false ->
        snd (RetryPolicy.retry policy shouldRetry action fuel w0) = w2).
Proof.
  intros Hk Ha Hs Hend fuel Hfuel. unfold RetryPolicy.retry.
  replace fuel with (k + S (fuel - S k))%nat by lia.
  rewrite (@retry_loop_after_rounds k fresh w0 st w Hk).
  cbn [RetryPolicy.retry_loop]. unfold bind at 1.
  unfold RetryPolicy.retry_round, bind. rewrite Ha, Hs.
  destruct again; cbn [negb].
  - destruct Hend as [Hf|Hstop]; [discriminate|].
    rewrite (@applyAndDelay_stops st w2 Hstop). unfold ret. cbn [fst snd].
    split; [reflexivity|discriminate].
  - unfold ret. cbn [fst snd]. now split.
Qed.

End Retry.

(** A run of C9's theorem: [limitRetries(2)], a predicate that always
    asks to retry, and an action that answers [10 * iteration_number + 7].
    Two rounds go round again; in the third the policy stops, and the
    result of the third call of the action, 27, is returned. *)
Lemma retry_returns_last_action_result_witness :
  fst (RetryPolicy.retry (limitRetries 2)
         (fun _ (_ : Z) w => (true, w))
         (fun st w => (10 * iteration_number st + 7, w))
         5 (mkSimWorld 0 [] 0)) = Some 27.
Proof.
  refine (proj1 (@retry_returns_last_action_result SimWorld _ Z
                   (limitRetries 2)
                   (fun _ _ w => (true, w))
                   (fun st w => (10 * iteration_number st + 7, w))
                   2 (mkSimWorld 0 [] 0)
                   (mkRetryStatus 2 0 (Some 0)) (mkSimWorld 0 [] 0)
                   27 (mkSimWorld 0 [] 0) true (mkSimWorld 0 [] 0)
                   eq_refl eq_refl eq_refl (or_intror eq_refl) 5%nat _)).
  lia.
Defined.

(** ** The switch from the first policy to the second *)

Lemma evaluations_of_app tag l1 l2 :
  evaluations_of tag (l1 ++ l2) =
  evaluations_of tag l1 ++ evaluations_of tag l2.
Proof. unfold evaluations_of. now rewrite filter_app, map_app. Qed.

Lemma evaluations_of_same tag sts :
  evaluations_of tag (map (pair tag) sts) = sts.
Proof.
  unfold evaluations_of. induction sts as [|s sts IH]; [reflexivity|].
  cbn [map filter fst]. rewrite Nat.eqb_refl. cbn [map snd]. now f_equal.
Qed.

Lemma evaluations_of_other tag tag' sts :
  tag' <> tag -> evaluations_of tag (map (pair tag') sts) = [].
Proof.
  intros Hne. unfold evaluations_of.
  induction sts as [|s sts IH]; [reflexivity|].
  cbn [map filter fst]. now destruct (Nat.eqb_spec tag' tag).
Qed.

Section Preemption.
Context {W : Type} `{Environment W}.
Variables before after : RetryPolicy.t W.

Lemma simulate_after_log :
  forall fuel st xs log w,
  exists sts,
    fst (snd (PreemptibleRetry.simulate_after (probed_retry before after)
                fuel st xs (log, w)))
    = log ++ map (pair 1%nat) sts
    /\ (forall s, hd_error sts = Some s -> s = st).
Proof.
  induction fuel as [|fuel IH]; intros st xs log w.
  - exists []. cbn. rewrite app_nil_r. split; [reflexivity|discriminate].
  - cbn [PreemptibleRetry.simulate_after]. unfold bind at 1.
    cbn [PreemptibleRetry.policy_after_ probed_retry]. rewrite apply_probe.
    destruct (RetryPolicy.apply after st w) as [[st'|] w']; cbn [fst snd].
    + destruct (IH st' (xs ++ [mkPreemptibleRetryStatus st' true])
                  (log ++ [(1%nat, st)]) w') as (sts & Hlog & _).
      exists (st :: sts). rewrite Hlog, <- app_assoc.
      split; [reflexivity|]. cbn. now intros s [= <-].
    + exists [st]. split; [reflexivity|]. cbn. now intros s [= <-].
Qed.

Lemma simulate_before_log :
  forall fuel n_after st xs log w,
  exists bs sts,
    fst (snd (PreemptibleRetry.simulate_before (probed_retry before after)
                fuel n_after st xs (log, w)))
    = log ++ map (pair 0%nat) bs ++ map (pair 1%nat) sts
    /\ (forall s, hd_error sts = Some s -> s = fresh).
Proof.
  induction fuel as [|fuel IH]; intros n_after st xs log w.
  - cbn [PreemptibleRetry.simulate_before].
    destruct (simulate_after_log n_after fresh xs log w) as (sts & Hlog & Hhd).
    exists [], sts. split; [exact Hlog | exact Hhd].
  - cbn [PreemptibleRetry.simulate_before]. unfold bind at 1.
    cbn [PreemptibleRetry.policy_before_ probed_retry]. rewrite apply_probe.
    destruct (RetryPolicy.apply before st w) as [[st'|] w']; cbn [fst snd].
    + destruct (IH n_after st' (xs ++ [mkPreemptibleRetryStatus st' false])
                  (log ++ [(0%nat, st)]) w') as (bs & sts & Hlog & Hhd).
      exists (st :: bs), sts. rewrite Hlog, <- app_assoc.
      split; [reflexivity | exact Hhd].
    + exists [st], []. split; [reflexivity|discriminate].
Qed.

(** C7.  When [applyAndPreemptibleDelay] is called with a status whose
    [condition_signalled] is true while the condition holds, the first
    policy is not evaluated, and the second policy is evaluated once, at
    the fresh status ([iteration_number = 0], [cumulative_delay = 0], no
    [previous_delay]) whatever the incoming status carries; the result
    is that of [applyAndDelay] of the second policy on the fresh status,
    with [condition_signalled = false], and stop is passed on.  In
    [simulate] too, whatever the number of iterations of the first
    policy, the first status the second policy is evaluated at is the
    fresh one. *)
Theorem preemption_resets_status
  (cond : Probed W -> bool) (status0 : PreemptibleRetryStatus)
  (log : list (nat * RetryStatus)) (w : W) :
  condition_signalled status0 = true ->
  cond (log, w) = true ->
  PreemptibleRetry.applyAndPreemptibleDelay (probed_retry before after)
    cond status0 (log, w) =
    (option_map (fun s => mkPreemptibleRetryStatus s false)
       (fst (RetryPolicy.applyAndDelay after fresh w)),
     (log ++ [(1%nat, fresh)],
      snd (RetryPolicy.applyAndDelay after fresh w)))
  /\ iteration_number fresh = 0
  /\ cumulative_delay fresh = 0
  /\ previous_delay fresh = None
  /\ forall n_before n_after s,
       hd_error
         (evaluations_of 1
            (fst (snd (PreemptibleRetry.simulate (probed_retry before after)
                         n_before n_after ([], w)))))
       = Some s ->
       s = fresh.
Proof.
  intros Hsig Hcond. split; [|repeat split].
  - unfold PreemptibleRetry.applyAndPreemptibleDelay.
    rewrite Hcond, Hsig. unfold bind.
    cbn [PreemptibleRetry.policy_after_ probed_retry retry_status
           fresh_preemptible].
    rewrite applyAndDelay_probe.
    now destruct (RetryPolicy.applyAndDelay after fresh w) as [[s|] w'].
  - intros n_before n_after s. unfold PreemptibleRetry.simulate.
    destruct (simulate_before_log (Z.to_nat n_before) (Z.to_nat n_after)
                fresh [] [] w) as (bs & sts & Hlog & Hhd).
    rewrite Hlog. cbn [app].
    rewrite evaluations_of_app, evaluations_of_other, evaluations_of_same
      by discriminate.
    exact (Hhd s).
Qed.

End Preemption.

(** A run of C7's theorem: a status preempted after 1000 iterations of
    the first policy, the condition holding, and [exponentialBackoff(10)]
    as the second policy.  The backoff starts again at [10 * 2^0]. *)
Lemma preemption_resets_status_witness :
  PreemptibleRetry.applyAndPreemptibleDelay
    (probed_retry (constantDelay 100) (exponentialBackoff 10))
    (fun lw => sim_condition (snd lw))
    (mkPreemptibleRetryStatus (mkRetryStatus 1000 100000 (Some 100)) true)
    ([], mkSimWorld 50 [] 20)
  = (Some (mkPreemptibleRetryStatus (mkRetryStatus 1 10 (Some 10)) false),
     ([(1%nat, fresh)], mkSimWorld 60 [] 20)).
Proof.
  exact (proj1 (@preemption_resets_status SimWorld _
                  (constantDelay 100) (exponentialBackoff 10)
                  (fun lw => sim_condition (snd lw))
                  (mkPreemptibleRetryStatus
                     (mkRetryStatus 1000 100000 (Some 100)) true)
                  [] (mkSimWorld 50 [] 20) eq_refl eq_refl)).
Defined.

(** * Further properties of the library *)

(** ** The wrapping combinators *)

Section Combinators.
Context {W : Type} `{Environment W}.

(** X1.  [capDelay(maxDelay, P)] evaluates [P] once; it stops exactly
    when [P] stops; the delay it returns never exceeds [maxDelay], is
    the delay of [P] when that is at most [maxDelay], and is [maxDelay]
    otherwise. *)
Theorem capDelay_caps_delay maxDelay (P : RetryPolicy.t W) tag st log w :
  let r := fst (P st w) in
  let c := capDelay maxDelay (probe tag P) st (log, w) in
  snd c = (log ++ [(tag, st)], snd (P st w))
  /\ (fst c = None <-> r = None)
  /\ (forall d, fst c = Some d -> d <= maxDelay)
  /\ (forall d, r = Some d ->
        fst c = Some (if d <=? maxDelay then d else maxDelay)).
Proof.
  cbv zeta. rewrite capDelay_evaluates_once. cbn [fst snd].
  destruct (fst (P st w)) as [d|]; cbn [option_map];
    unfold microseconds in *.
  - split; [reflexivity|]. split; [split; discriminate|]. split.
    + intros d' [= <-]. lia.
    + intros d' [= <-]. f_equal.
      destruct (Z.leb_spec d maxDelay); lia.
  - split; [reflexivity|]. split; [tauto|]. split; discriminate.
Qed.

(** X2.  Capping twice is capping once with the smaller bound. *)
Theorem capDelay_twice a b (P : RetryPolicy.t W) st w :
  capDelay a (capDelay b P) st w = capDelay (Z.min a b) P st w.
Proof.
  unfold capDelay, bind, ret. destruct (P st w) as [[d|] w']; [|reflexivity].
  now rewrite Z.min_assoc.
Qed.

(** X3.  [limitRetriesByDelay(delayLimit, P)] evaluates [P] once; it
    stops exactly when [P] stops or yields a delay of at least
    [delayLimit]; a delay it returns is the delay of [P] and is below
    [delayLimit]. *)
Theorem limitRetriesByDelay_rule delayLimit (P : RetryPolicy.t W)
  tag st log w :
  let r := fst (P st w) in
  let c := limitRetriesByDelay delayLimit (probe tag P) st (log, w) in
  snd c = (log ++ [(tag, st)], snd (P st w))
  /\ (fst c = None <-> r = None \/ exists d, r = Some d /\ delayLimit <= d)
  /\ (forall d, fst c = Some d -> r = Some d /\ d < delayLimit).
Proof.
  cbv zeta. rewrite limitRetriesByDelay_evaluates_once. cbn [fst snd].
  destruct (fst (P st w)) as [d|]; unfold microseconds in *.
  - destruct (d >=? delayLimit) eqn:G; rewrite Z.geb_leb in G;
      [apply Z.leb_le in G | apply Z.leb_gt in G].
    + split; [reflexivity|]. split; [|discriminate].
      split; [intros _; right; now exists d | reflexivity].
    + split; [reflexivity|]. split.
      * split; [discriminate|]. intros [E | (d' & [= <-] & Hd)];
          [discriminate | lia].
      * intros d' [= <-]. now split.
  - split; [reflexivity|]. split; [|discriminate]. split; [now left | reflexivity].
Qed.

(** X5.  On a policy without effects, [limitTimePoint] follows its
    rule: it stops when [P] stops or when the delay, converted to the
    unit of the clock and added to the time point read from it, passes
    the limit, and returns the delay of [P] otherwise; the second
    evaluation of [P] does not show. *)
Theorem limitTimePoint_effect_free limit (P : RetryPolicy.t W) f st w :
  effect_free P f ->
  limitTimePoint limit P st w =
  (match f st with
   | Some d =>
       if time_point_add d (system_clock_now w) >? limit
       then None else Some d
   | None => None
   end, w).
Proof.
  intros HP. unfold limitTimePoint, bind, ret. rewrite HP.
  destruct (f st) as [d|] eqn:E.
  - destruct (time_point_add d (system_clock_now w) >? limit);
      [reflexivity|].
    now rewrite HP, E.
  - now rewrite HP, E.
Qed.

End Combinators.

(** A run of X5's theorem: [limitTimePoint] over [constantDelay(100)],
    with the clock at 950 microseconds and the limit at 1000
    microseconds, 1000000 ticks. *)
Lemma limitTimePoint_effect_free_witness :
  limitTimePoint 1000000 (constantDelay 100) fresh (mkSimWorld 950 [] 0)
  = (None, mkSimWorld 950 [] 0).
Proof.
  exact (@limitTimePoint_effect_free SimWorld _ 1000000 (constantDelay 100)
           (fun _ => Some 100) fresh (mkSimWorld 950 [] 0)
           (fun st w => eq_refl)).
Defined.

(** ** The algebra of [operator+] *)

Section Combine.
Context {W : Type}.

(** X6.  [operator+] is associative, effects included: both groupings
    evaluate the three policies once each, in the same order. *)
Theorem combine_assoc (x y z : RetryPolicy.t W) st w :
  RetryPolicy.combine (RetryPolicy.combine x y) z st w =
  RetryPolicy.combine x (RetryPolicy.combine y z) st w.
Proof.
  unfold RetryPolicy.combine, bind, ret.
  destruct (x st w) as [[dx|] w1];
    destruct (y st w1) as [[dy|] w2];
    destruct (z st w2) as [[dz|] w3]; try reflexivity.
  now rewrite Z.max_assoc.
Qed.

(** X7.  On policies without effects [operator+] is commutative and
    idempotent. *)
Theorem combine_comm_effect_free (x y : RetryPolicy.t W) fx fy st w :
  effect_free x fx -> effect_free y fy ->
  RetryPolicy.combine x y st w = RetryPolicy.combine y x st w
  /\ RetryPolicy.combine x x st w = x st w.
Proof.
  intros Hx Hy. unfold RetryPolicy.combine, bind, ret.
  rewrite !Hx, !Hy, !Hx. split.
  - destruct (fx st) as [dx|], (fy st) as [dy|]; try reflexivity.
    now rewrite Z.max_comm.
  - destruct (fx st) as [dx|]; [|reflexivity]. now rewrite Z.max_id.
Qed.

End Combine.

(** A run of X7's theorem on [constantDelay(100)] and [limitRetries(3)]. *)
Lemma combine_comm_effect_free_witness :
  RetryPolicy.combine (constantDelay 100) (limitRetries 3) fresh
    (mkSimWorld 0 [] 0)
  = RetryPolicy.combine (limitRetries 3) (constantDelay 100) fresh
      (mkSimWorld 0 [] 0)
  /\ RetryPolicy.combine (constantDelay 100) (constantDelay 100) fresh
       (mkSimWorld 0 [] 0)
     = constantDelay 100 fresh (mkSimWorld 0 [] 0).
Proof.
  exact (@combine_comm_effect_free SimWorld
           (constantDelay 100) (limitRetries 3)
           (fun _ => Some 100) (limitRetries_delay 3)
           fresh (mkSimWorld 0 [] 0)
           (fun st w => eq_refl) (@limitRetries_pure SimWorld 3)).
Defined.

(** ** What [simulate] yields, for every policy *)

Section SimulateInvariants.
Context {W : Type}.
Variable P : RetryPolicy.t W.

Lemma apply_some st w st' :
  fst (RetryPolicy.apply P st w) = Some st' ->
  exists d, fst (P st w) = Some d /\ st' = next_status st d.
Proof.
  unfold RetryPolicy.apply, bind, ret.
  destruct (P st w) as [[d|] w1]; cbn [fst]; [|discriminate].
  intros [= <-]. now exists d.
Qed.

Lemma simulate_loop_acc fuel :
  forall st xs w,
    RetryPolicy.simulate_loop P fuel st xs w =
    (xs ++ fst (RetryPolicy.simulate_loop P fuel st [] w),
     snd (RetryPolicy.simulate_loop P fuel st [] w)).
Proof.
  induction fuel as [|fuel IH]; intros st xs w;
    cbn [RetryPolicy.simulate_loop].
  - unfold ret. cbn [fst snd]. now rewrite app_nil_r.
  - unfold bind.
    destruct (RetryPolicy.apply P st w) as [[st'|] w1].
    + rewrite (IH st' (xs ++ [st'])), (IH st' ([] ++ [st'])).
      cbn [fst snd]. now rewrite <- app_assoc.
    + unfold ret. cbn [fst snd]. now rewrite app_nil_r.
Qed.

Lemma simulate_loop_step fuel st w :
  fst (RetryPolicy.simulate_loop P (S fuel) st [] w) =
  match RetryPolicy.apply P st w with
  | (Some st', w1) => st' :: fst (RetryPolicy.simulate_loop P fuel st' [] w1)
  | (None, _) => []
  end.
Proof.
  cbn [RetryPolicy.simulate_loop]. unfold bind at 1.
  destruct (RetryPolicy.apply P st w) as [[st'|] w1]; [|reflexivity].
  now rewrite simulate_loop_acc.
Qed.

Lemma simulate_loop_statuses fuel :
  forall st0 w i st,
    0 <= iteration_number st0 ->
    iteration_number st0 + Z.of_nat fuel <= INT_MAX ->
    nth_error (fst (RetryPolicy.simulate_loop P fuel st0 [] w)) i = Some st ->
    iteration_number st = iteration_number st0 + Z.of_nat i + 1
    /\ exists prev d,
         match i with
         | O => prev = st0
         | S j =>
             nth_error (fst (RetryPolicy.simulate_loop P fuel st0 [] w)) j
             = Some prev
         end
         /\ st = next_status prev d.
Proof.
  induction fuel as [|fuel IH]; intros st0 w i st H0 Hmax Hnth.
  - cbn in Hnth. now destruct i.
  - rewrite simulate_loop_step in Hnth |- *.
    destruct (RetryPolicy.apply P st0 w) as [[st'|] w1] eqn:E;
      [|now destruct i].
    destruct (@apply_some st0 w st') as (d & _ & Hst'); [now rewrite E|].
    assert (Hit : iteration_number st' = iteration_number st0 + 1).
    { rewrite Hst'. unfold next_status. cbn [iteration_number].
      apply to_int_small. unfold int_range, INT_MIN, INT_MAX in *. lia. }
    destruct i as [|i]; cbn [nth_error] in Hnth |- *.
    + injection Hnth as <-. split; [lia|]. now exists st0, d.
    + destruct (IH st' w1 i st) as (Hi & prev & d' & Hprev & Hst);
        [lia | lia | exact Hnth |].
      split; [lia|]. exists prev, d'. split; [|exact Hst].
      destruct i as [|j]; [now rewrite Hprev | exact Hprev].
Qed.

Lemma simulate_loop_length fuel :
  forall st w,
    (length (fst (RetryPolicy.simulate_loop P fuel st [] w)) <= fuel)%nat.
Proof.
  induction fuel as [|fuel IH]; intros st w; [cbn; lia|].
  rewrite simulate_loop_step.
  destruct (RetryPolicy.apply P st w) as [[st'|] w1]; cbn [length]; [|lia].
  specialize (IH st' w1). lia.
Qed.

Lemma simulate_loop_prefix a :
  forall b st w,
    (a <= b)%nat ->
    exists tail,
      fst (RetryPolicy.simulate_loop P b st [] w) =
      fst (RetryPolicy.simulate_loop P a st [] w) ++ tail.
Proof.
  induction a as [|a IH]; intros b st w Hab.
  - eexists. cbn. reflexivity.
  - destruct b as [|b]; [lia|]. rewrite !simulate_loop_step.
    destruct (RetryPolicy.apply P st w) as [[st'|] w1]; [|now exists []].
    destruct (IH b st' w1) as (tail & ->); [lia|]. now exists tail.
Qed.

Lemma simulate_loop_Forall (Q : RetryStatus -> Prop) :
  (forall st w st', fst (RetryPolicy.apply P st w) = Some st' -> Q st') ->
  forall fuel st w,
    Forall Q (fst (RetryPolicy.simulate_loop P fuel st [] w)).
Proof.
  intros HQ. induction fuel as [|fuel IH]; intros st w; [constructor|].
  rewrite simulate_loop_step.
  destruct (RetryPolicy.apply P st w) as [[st'|] w1] eqn:E; [|constructor].
  constructor; [|apply IH]. apply (HQ st w). now rewrite E.
Qed.

Lemma simulate_loop_stops_from n fuel :
  stops_from P n ->
  n <= INT_MAX ->
  forall st w,
    0 <= iteration_number st <= n ->
    (length (fst (RetryPolicy.simulate_loop P fuel st [] w))
     <= Z.to_nat (n - iteration_number st))%nat.
Proof.
  intros Hstop Hn. induction fuel as [|fuel IH]; intros st w Hj; [cbn; lia|].
  rewrite simulate_loop_step.
  destruct (RetryPolicy.apply P st w) as [[st'|] w1] eqn:E; [|cbn; lia].
  destruct (@apply_some st w st') as (d & Hd & Hst'); [now rewrite E|].
  assert (Hlt : iteration_number st < n).
  { destruct (Z.lt_ge_cases (iteration_number st) n) as [Hlt|Hge]; [exact Hlt|].
    rewrite (Hstop st w Hge) in Hd. discriminate. }
  assert (Hit : iteration_number st' = iteration_number st + 1).
  { rewrite Hst'. unfold next_status. cbn [iteration_number].
    apply to_int_small. unfold int_range, INT_MIN, INT_MAX in *. lia. }
  specialize (IH st' w1). cbn [length]. lia.
Qed.

(** X8.  For an [int] [n], [simulate(n)] yields at most [n] statuses,
    and none at all, without evaluating the policy, when [n <= 0].  The
    status of index [i] has [iteration_number = i + 1], and is built
    from its predecessor (the fresh status for the first one) and the
    delay chosen: one more iteration, the delay added to the cumulative
    delay, the delay as [previous_delay]. *)
Theorem simulate_statuses (n : Z) (w : W) :
  n <= INT_MAX ->
  let xs := fst (RetryPolicy.simulate P n w) in
  (length xs <= Z.to_nat n)%nat
  /\ (n <= 0 -> RetryPolicy.simulate P n w = ([], w))
  /\ forall i st,
       nth_error xs i = Some st ->
       iteration_number st = Z.of_nat i + 1
       /\ exists prev d,
            match i with
            | O => prev = fresh
            | S j => nth_error xs j = Some prev
            end
            /\ iteration_number st = iteration_number prev + 1
            /\ cumulative_delay st = us_add (cumulative_delay prev) d
            /\ previous_delay st = Some d.
Proof.
  intros Hn xs. subst xs. unfold RetryPolicy.simulate. split; [|split].
  - apply simulate_loop_length.
  - intros H0. now replace (Z.to_nat n) with O by lia.
  - intros i st Hnth.
    destruct (@simulate_loop_statuses (Z.to_nat n) fresh w i st)
      as (Hi & prev & d & Hprev & Hst);
      [cbn [fresh iteration_number]; lia
      | cbn [fresh iteration_number]; unfold INT_MAX in *; lia
      | exact Hnth |].
    cbn [fresh iteration_number] in Hi. split; [lia|].
    exists prev, d. split; [exact Hprev|].
    assert (Hpi : iteration_number prev = Z.of_nat i).
    { destruct i as [|j]; [now rewrite Hprev|].
      destruct (@simulate_loop_statuses (Z.to_nat n) fresh w j prev)
        as (Hj & _);
        [cbn [fresh iteration_number]; lia
        | cbn [fresh iteration_number]; unfold INT_MAX in *; lia
        | exact Hprev |].
      cbn [fresh iteration_number] in Hj. lia. }
    rewrite Hst at 2 3. cbn [next_status cumulative_delay previous_delay].
    repeat split. lia.
Qed.

(** X9.  A shorter simulation is a prefix of a longer one started in the
    same world. *)
Theorem simulate_prefix (m n : Z) (w : W) :
  m <= n ->
  exists tail,
    fst (RetryPolicy.simulate P n w) = fst (RetryPolicy.simulate P m w) ++ tail.
Proof.
  intros Hmn. unfold RetryPolicy.simulate.
  apply simulate_loop_prefix. lia.
Qed.

Lemma simulate_stops_from (n m : Z) (w : W) :
  stops_from P n ->
  0 <= n <= INT_MAX ->
  Z.of_nat (length (fst (RetryPolicy.simulate P m w))) <= n.
Proof.
  intros Hstop Hn. unfold RetryPolicy.simulate.
  pose proof (@simulate_loop_stops_from n (Z.to_nat m) Hstop (proj2 Hn)
                fresh w) as Hlen.
  cbn [fresh iteration_number] in Hlen. lia.
Qed.

End SimulateInvariants.

(** A run of X8's theorem: three steps of [exponentialBackoff(10)]. *)
Lemma simulate_statuses_witness :
  (length (fst (RetryPolicy.simulate (exponentialBackoff 10%Z) 3%Z
                  (mkSimWorld 0%Z [] 0%Z))) <= Z.to_nat 3%Z)%nat.
Proof.
  refine (proj1 (@simulate_statuses SimWorld (exponentialBackoff 10) 3
                   (mkSimWorld 0 [] 0) _)).
  unfold INT_MAX. lia.
Defined.

(** A run of X9's theorem: two steps and five steps of [fullJitter(100)]
    on the same generator. *)
Lemma simulate_prefix_witness :
  exists tail,
    fst (RetryPolicy.simulate (fullJitter 100) 5
           (mkSimWorld 0 [7; 250; 33; 1000; 4] 0))
    = fst (RetryPolicy.simulate (fullJitter 100) 2
             (mkSimWorld 0 [7; 250; 33; 1000; 4] 0)) ++ tail.
Proof.
  apply (@simulate_prefix SimWorld (fullJitter 100) 2 5
           (mkSimWorld 0 [7; 250; 33; 1000; 4] 0)).
  lia.
Defined.

(** ** Limits that hold along a simulation *)

Section Limits.
Context {W : Type}.

Lemma limitRetries_stops_from (n : Z) :
  stops_from (limitRetries (W := W) n) n.
Proof.
  intros st w Hn. unfold limitRetries.
  destruct (iteration_number st >=? n) eqn:G; [reflexivity|].
  rewrite Z.geb_leb in G. apply Z.leb_gt in G. lia.
Qed.

Lemma combine_stops_from (x y : RetryPolicy.t W) (n : Z) :
  stops_from x n \/ stops_from y n ->
  stops_from (RetryPolicy.combine x y) n.
Proof.
  intros Hxy st w Hn. unfold RetryPolicy.combine, bind, ret.
  destruct (x st w) as [rx w1] eqn:Ex.
  destruct (y st w1) as [ry w2] eqn:Ey.
  destruct Hxy as [Hx|Hy].
  - pose proof (Hx st w Hn) as E. rewrite Ex in E. cbn in E. subst rx.
    reflexivity.
  - pose proof (Hy st w1 Hn) as E. rewrite Ey in E. cbn in E. subst ry.
    now destruct rx.
Qed.

(** X10.  Combined with [limitRetries(n)], on either side, a policy is
    never simulated beyond [n] statuses, however many steps are asked
    for and whatever the policy is. *)
Theorem combine_limitRetries_bounds_retries (P : RetryPolicy.t W)
  (n m : Z) (w : W) :
  0 <= n <= INT_MAX ->
  Z.of_nat (length (fst (RetryPolicy.simulate
                           (RetryPolicy.combine P (limitRetries n)) m w)))
  <= n
  /\ Z.of_nat (length (fst (RetryPolicy.simulate
                              (RetryPolicy.combine (limitRetries n) P) m w)))
     <= n.
Proof.
  intros Hn. split; apply simulate_stops_from; try exact Hn;
    apply combine_stops_from;
    [right | left]; apply limitRetries_stops_from.
Qed.

(** X4.  Every status simulated under [limitCumulativeDelay(limit, P)]
    has a cumulative delay below [limit], whatever [P] is. *)
Theorem limitCumulativeDelay_bounds_cumulative_delay
  (limit : microseconds) (P : RetryPolicy.t W) (n : Z) (w : W) :
  Forall (fun st => cumulative_delay st < limit)
    (fst (RetryPolicy.simulate (limitCumulativeDelay limit P) n w)).
Proof.
  unfold RetryPolicy.simulate. apply simulate_loop_Forall.
  intros st w0 st' Happly.
  destruct (apply_some _ _ _ Happly) as (d & Hd & ->).
  unfold limitCumulativeDelay, bind, ret in Hd.
  destruct (P st w0) as [[d0|] w1]; cbn [fst] in Hd; [|discriminate].
  destruct (us_add d0 (cumulative_delay st) >=? limit) eqn:G;
    cbn [fst] in Hd; [discriminate|].
  injection Hd as <-. rewrite Z.geb_leb in G. apply Z.leb_gt in G.
  unfold next_status. cbn [cumulative_delay].
  unfold us_add in *. now rewrite Z.add_comm.
Qed.

(** X11.  Every status simulated under [capDelay(maxDelay, P)] carries a
    previous delay of at most [maxDelay], whatever [P] is. *)
Theorem capDelay_bounds_simulated_delays
  (maxDelay : microseconds) (P : RetryPolicy.t W) (n : Z) (w : W) :
  Forall (fun st => exists d, previous_delay st = Some d /\ d <= maxDelay)
    (fst (RetryPolicy.simulate (capDelay maxDelay P) n w)).
Proof.
  unfold RetryPolicy.simulate. apply simulate_loop_Forall.
  intros st w0 st' Happly.
  destruct (apply_some _ _ _ Happly) as (d & Hd & ->).
  unfold capDelay, bind, ret in Hd.
  destruct (P st w0) as [[d0|] w1]; cbn [fst] in Hd; [|discriminate].
  injection Hd as <-. eexists. split; [reflexivity|].
  unfold microseconds in *. lia.
Qed.

(** X12.  Every status simulated under [limitRetriesByDelay(delayLimit, P)]
    carries a previous delay below [delayLimit], whatever [P] is. *)
Theorem limitRetriesByDelay_bounds_simulated_delays
  (delayLimit : microseconds) (P : RetryPolicy.t W) (n : Z) (w : W) :
  Forall (fun st => exists d, previous_delay st = Some d /\ d < delayLimit)
    (fst (RetryPolicy.simulate (limitRetriesByDelay delayLimit P) n w)).
Proof.
  unfold RetryPolicy.simulate. apply simulate_loop_Forall.
  intros st w0 st' Happly.
  destruct (apply_some _ _ _ Happly) as (d & Hd & ->).
  unfold limitRetriesByDelay, bind, ret in Hd.
  destruct (P st w0) as [[d0|] w1]; cbn [fst] in Hd; [|discriminate].
  destruct (d0 >=? delayLimit) eqn:G; cbn [fst] in Hd; [discriminate|].
  injection Hd as <-. rewrite Z.geb_leb in G. apply Z.leb_gt in G.
  exists d0. now split.
Qed.

End Limits.

(** A run of X10's theorem: [fullJitter(100) + limitRetries(2)], ten
    steps asked for. *)
Lemma combine_limitRetries_bounds_retries_witness :
  Z.of_nat (length (fst (RetryPolicy.simulate
                           (RetryPolicy.combine (fullJitter 100)
                              (limitRetries 2))
                           10 (mkSimWorld 0 [5; 6; 7] 0))))
  <= 2.
Proof.
  refine (proj1 (@combine_limitRetries_bounds_retries SimWorld
                   (fullJitter 100) 2 10 (mkSimWorld 0 [5; 6; 7] 0) _)).
  unfold INT_MAX. lia.
Defined.

(** ** [constantDelay] and [neverRetry] *)

Lemma constantDelay_trace (d : microseconds) (N : Z) :
  N <= INT_MAX -> rep_range (N * d) ->
  forall (m : nat) (j : Z) prev,
    0 <= j -> j + Z.of_nat m <= N ->
    pure_trace (fun _ => Some d) m (mkRetryStatus j (j * d) prev) =
    map (fun k => mkRetryStatus (j + Z.of_nat k) ((j + Z.of_nat k) * d)
                                (Some d))
        (seq 1 m).
Proof.
  intros HN Hrep. unfold microseconds in *.
  induction m as [|m IH]; intros j prev Hj Hjm; [reflexivity|].
  cbn [pure_trace].
  assert (Hnext : next_status (mkRetryStatus j (j * d) prev) d =
                  mkRetryStatus (j + 1) ((j + 1) * d) (Some d)).
  { unfold next_status, us_add. cbn [iteration_number cumulative_delay].
    rewrite to_int_small by (unfold int_range, INT_MIN, INT_MAX in *; lia).
    rewrite to_rep_small; [f_equal; lia|].
    unfold rep_range, INT64_MIN, INT64_MAX in *. nia. }
  rewrite Hnext, (IH (j + 1) (Some d)) by lia.
  cbn [seq map]. change (Z.of_nat 1) with 1. f_equal.
  rewrite <- (seq_shift m 1), map_map.
  apply map_ext. intros k.
  replace (j + 1 + Z.of_nat k) with (j + Z.of_nat (S k)) by lia.
  reflexivity.
Qed.

(** X13.  For an [int] [n >= 0] and a delay [d] such that [n * d] fits
    the 64-bit microsecond count, [constantDelay(d).simulate(n)] is the
    sequence of the [n] statuses with [iteration_number = k],
    [cumulative_delay = k * d] and [previous_delay = d], [k = 1..n]. *)
Theorem constantDelay_simulate (W : Type) (d : microseconds) (n : Z) (w : W) :
  0 <= n <= INT_MAX ->
  rep_range (n * d) ->
  fst (RetryPolicy.simulate (constantDelay d) n w) =
  map (fun k => mkRetryStatus (Z.of_nat k) (Z.of_nat k * d) (Some d))
      (seq 1 (Z.to_nat n)).
Proof.
  intros Hn Hrep.
  rewrite (simulate_pure (constantDelay d) (fun _ => Some d)) by reflexivity.
  cbn [fst]. unfold fresh.
  change (mkRetryStatus 0 0 None) with (mkRetryStatus 0 (0 * d) None).
  rewrite (@constantDelay_trace d n (proj2 Hn) Hrep (Z.to_nat n) 0 None)
    by lia.
  apply map_ext. intros k. reflexivity.
Qed.

(** A run of X13's theorem: [constantDelay(100).simulate(3)]. *)
Lemma constantDelay_simulate_witness :
  fst (RetryPolicy.simulate (constantDelay 100) 3 (mkSimWorld 0 [] 0)) =
  [mkRetryStatus 1 100 (Some 100); mkRetryStatus 2 200 (Some 100);
   mkRetryStatus 3 300 (Some 100)].
Proof.
  refine (@constantDelay_simulate SimWorld 100 3 (mkSimWorld 0 [] 0) _ _).
  - unfold INT_MAX. lia.
  - unfold rep_range, INT64_MIN, INT64_MAX. lia.
Defined.

Section NeverRetry.
Context {W : Type} `{Environment W}.

(** X14.  [neverRetry] yields no status in any simulation; combined with
    any policy, on either side, it stops; and [retry] under it calls the
    action once and returns its result, whatever [shouldRetry] answers,
    without sleeping. *)
Theorem neverRetry_never_retries :
  (forall n w, RetryPolicy.simulate (W := W) neverRetry n w = ([], w))
  /\ (forall (P : RetryPolicy.t W) st w,
        fst (RetryPolicy.combine P neverRetry st w) = None
        /\ fst (RetryPolicy.combine neverRetry P st w) = None)
  /\ (forall (T : Type) (shouldRetry : RetryStatus -> T -> Eff W bool)
             (action : RetryStatus -> Eff W T) fuel w,
        RetryPolicy.retry neverRetry shouldRetry action (S fuel) w =
        (Some (fst (action fresh w)),
         snd (shouldRetry fresh (fst (action fresh w))
                (snd (action fresh w))))).
Proof.
  split; [|split].
  - intros n w. unfold RetryPolicy.simulate.
    destruct (Z.to_nat n); reflexivity.
  - intros P st w. unfold RetryPolicy.combine, neverRetry, bind, ret.
    destruct (P st w) as [[d|] w1]; now split.
  - intros T shouldRetry action fuel w.
    unfold RetryPolicy.retry. cbn [RetryPolicy.retry_loop].
    unfold bind at 1. unfold RetryPolicy.retry_round, bind at 1.
    destruct (action fresh w) as [r w1]. unfold bind at 1.
    cbn [fst snd].
    destruct (shouldRetry fresh r w1) as [[|] w2]; reflexivity.
Qed.

End NeverRetry.

(** ** Termination of [retry] under a retry limit *)

Section RetryTermination.
Context {W : Type} `{Environment W} {T : Type}.
Variable shouldRetry : RetryStatus -> T -> Eff W bool.
Variable action : RetryStatus -> Eff W T.

Lemma applyAndDelay_some (Q : RetryPolicy.t W) st w st' :
  fst (RetryPolicy.applyAndDelay Q st w) = Some st' ->
  exists d, fst (Q st w) = Some d /\ st' = next_status st d.
Proof.
  unfold RetryPolicy.applyAndDelay, bind. intros Hd.
  apply (@apply_some W Q st w).
  destruct (RetryPolicy.apply Q st w) as [[s|] w1]; cbn [fst] in *;
    [|discriminate].
  now destruct (previous_delay s).
Qed.

Lemma retry_loop_terminates (Q : RetryPolicy.t W) (n : Z) :
  stops_from Q n ->
  n <= INT_MAX ->
  forall fuel st w,
    0 <= iteration_number st <= n ->
    (Z.to_nat (n - iteration_number st) < fuel)%nat ->
    exists r,
      fst (RetryPolicy.retry_loop Q shouldRetry action fuel st w) = Some r.
Proof.
  intros Hstop Hn. induction fuel as [|fuel IH]; intros st w Hj Hfuel; [lia|].
  cbn [RetryPolicy.retry_loop]. unfold bind at 1.
  unfold RetryPolicy.retry_round, bind at 1.
  destruct (action st w) as [r w1]. unfold bind at 1.
  destruct (shouldRetry st r w1) as [[|] w2]; cbn [negb];
    [|now exists r].
  unfold bind at 1.
  destruct (RetryPolicy.applyAndDelay Q st w2) as [[st'|] w3] eqn:E;
    [|now exists r].
  destruct (@applyAndDelay_some Q st w2 st') as (d & Hd & Hst');
    [now rewrite E|].
  assert (Hlt : iteration_number st < n).
  { destruct (Z.lt_ge_cases (iteration_number st) n) as [Hlt|Hge]; [exact Hlt|].
    rewrite (Hstop st w2 Hge) in Hd. discriminate. }
  assert (Hit : iteration_number st' = iteration_number st + 1).
  { rewrite Hst'. unfold next_status. cbn [iteration_number].
    apply to_int_small. unfold int_range, INT_MIN, INT_MAX in *. lia. }
  unfold ret at 1. apply IH; lia.
Qed.

(** X15.  Under [limitRetries(n)], alone or combined with any policy,
    [retry] returns within [n + 1] rounds, whatever the action and the
    predicate do: the loop cannot run forever. *)
Theorem retry_terminates_under_limitRetries (P : RetryPolicy.t W)
  (n : Z) (fuel : nat) (w : W) :
  0 <= n <= INT_MAX ->
  (Z.to_nat n < fuel)%nat ->
  (exists r,
     fst (RetryPolicy.retry (limitRetries n) shouldRetry action fuel w)
     = Some r)
  /\ (exists r,
        fst (RetryPolicy.retry (RetryPolicy.combine P (limitRetries n))
               shouldRetry action fuel w)
        = Some r).
Proof.
  intros Hn Hfuel. unfold RetryPolicy.retry.
  split; apply (@retry_loop_terminates _ n);
    try (cbn [fresh iteration_number]; lia).
  - apply limitRetries_stops_from.
  - apply combine_stops_from. right. apply limitRetries_stops_from.
Qed.

End RetryTermination.

(** A run of X15's theorem: an action that always fails and a predicate
    that always asks to retry, under [constantDelay(100) + limitRetries(3)]
    with four rounds allowed. *)
Lemma retry_terminates_under_limitRetries_witness :
  exists r,
    fst (RetryPolicy.retry
           (RetryPolicy.combine (constantDelay 100) (limitRetries 3))
           (fun _ (_ : bool) w => (true, w))
           (fun _ w => (false, w))
           4 (mkSimWorld 0 [] 0))
    = Some r.
Proof.
  refine (proj2 (@retry_terminates_under_limitRetries SimWorld _ bool
                   (fun _ _ w => (true, w)) (fun _ w => (false, w))
                   (constantDelay 100) 3 4%nat (mkSimWorld 0 [] 0) _ _)).
  - unfold INT_MAX. lia.
  - lia.
Defined.

(** ** The jitter policies *)

Section Jitter.
Context {W : Type} `{Environment W}.
Hypothesis random_source : uniform_in_range W.

Lemma draw_in_range g (b : Z) (w : W) :
  0 <= b <= INT_MAX ->
  0 <= fst (uniform_int_distribution g 0 b w) <= b.
Proof.
  intros Hb. apply random_source;
    unfold int_range, INT_MIN, INT_MAX in *; lia.
Qed.

(** X16.  With a random source that draws within the range it is given,
    [fullJitter(max_delay)], for [0 <= max_delay <= INT_MAX], never
    stops and returns a delay in [[0, max_delay]]. *)
Theorem fullJitter_bounds (max_delay : microseconds) st (w : W) :
  0 <= max_delay <= INT_MAX ->
  exists d, fst (fullJitter max_delay st w) = Some d /\ 0 <= d <= max_delay.
Proof.
  intros Hmax. unfold fullJitter, bind, ret.
  rewrite to_int_small by (unfold int_range, INT_MIN, INT_MAX in *; lia).
  pose proof (@draw_in_range gen_fullJitter max_delay w Hmax) as Hd.
  destruct (uniform_int_distribution gen_fullJitter 0 max_delay w) as [d w'].
  now exists d.
Qed.

(** X17.  With such a source, [equalJitter(max_delay)], for
    [0 <= max_delay] with [max_delay / 2 <= INT_MAX], never stops and
    returns a delay in [[max_delay / 2, max_delay]]. *)
Theorem equalJitter_bounds (max_delay : microseconds) st (w : W) :
  0 <= max_delay -> max_delay / 2 <= INT_MAX ->
  exists d,
    fst (equalJitter max_delay st w) = Some d
    /\ max_delay / 2 <= d <= max_delay.
Proof.
  intros H0 Hhalf. unfold microseconds in *.
  unfold equalJitter, bind, ret, us_div, us_add.
  rewrite Z.quot_div_nonneg by lia.
  pose proof (Z.div_pos max_delay 2 H0 ltac:(lia)) as Hpos.
  pose proof (Z.mul_div_le max_delay 2 ltac:(lia)) as Hle.
  rewrite (to_rep_small (z := max_delay / 2))
    by (unfold rep_range, INT64_MIN, INT64_MAX, INT_MAX in *; lia).
  rewrite to_int_small by (unfold int_range, INT_MIN, INT_MAX in *; lia).
  pose proof (@draw_in_range gen_equalJitter (max_delay / 2) w
                (conj Hpos Hhalf)) as Hd.
  destruct (uniform_int_distribution gen_equalJitter 0 (max_delay / 2) w)
    as [d w'].
  cbn [fst] in *. eexists. split; [reflexivity|].
  rewrite to_rep_small
    by (unfold rep_range, INT64_MIN, INT64_MAX, INT_MAX in *; lia).
  lia.
Qed.

(** X18.  With such a source, [fullJitterBackoff(base)] at iteration
    [i], for [0 <= i <= 30] and [0 <= base * 2^i <= INT_MAX], returns a
    delay in [[0, base * 2^i]]. *)
Theorem fullJitterBackoff_bounds (base : microseconds) st (w : W) :
  0 <= iteration_number st <= 30 ->
  0 <= base * 2 ^ iteration_number st <= INT_MAX ->
  exists d,
    fst (fullJitterBackoff base st w) = Some d
    /\ 0 <= d <= base * 2 ^ iteration_number st.
Proof.
  intros Hi Hn. unfold microseconds in *.
  unfold fullJitterBackoff, bind, ret, us_mul.
  rewrite pow2_int_small by exact Hi.
  rewrite to_rep_small
    by (unfold rep_range, INT64_MIN, INT64_MAX, INT_MAX in *; lia).
  rewrite to_int_small by (unfold int_range, INT_MIN, INT_MAX in *; lia).
  pose proof (@draw_in_range gen_fullJitterBackoff
                (base * 2 ^ iteration_number st) w Hn) as Hd.
  destruct (uniform_int_distribution gen_fullJitterBackoff 0
              (base * 2 ^ iteration_number st) w) as [d w'].
  now exists d.
Qed.

(** X19.  With such a source, [equalJitterBackoff(base)] at iteration
    [i], for [0 <= i <= 30] and [n = base * 2^i] with [0 <= n] in the
    64-bit range and [n / 2 <= INT_MAX], returns a delay in
    [[n / 2, n]]. *)
Theorem equalJitterBackoff_bounds (base : microseconds) st (w : W) :
  0 <= iteration_number st <= 30 ->
  0 <= base * 2 ^ iteration_number st <= INT64_MAX ->
  base * 2 ^ iteration_number st / 2 <= INT_MAX ->
  exists d,
    fst (equalJitterBackoff base st w) = Some d
    /\ base * 2 ^ iteration_number st / 2 <= d
       <= base * 2 ^ iteration_number st.
Proof.
  intros Hi Hn Hhalf. unfold microseconds in *.
  unfold equalJitterBackoff, bind, ret, us_mul, us_div, us_add.
  rewrite pow2_int_small by exact Hi.
  set (n := base * 2 ^ iteration_number st) in *.
  rewrite (to_rep_small (z := n))
    by (unfold rep_range, INT64_MIN, INT64_MAX in *; lia).
  rewrite Z.quot_div_nonneg by lia.
  pose proof (Z.div_pos n 2 (proj1 Hn) ltac:(lia)) as Hpos.
  pose proof (Z.mul_div_le n 2 ltac:(lia)) as Hle.
  rewrite (to_rep_small (z := n / 2))
    by (unfold rep_range, INT64_MIN, INT64_MAX, INT_MAX in *; lia).
  rewrite to_int_small by (unfold int_range, INT_MIN, INT_MAX in *; lia).
  pose proof (@draw_in_range gen_equalJitterBackoff (n / 2) w
                (conj Hpos Hhalf)) as Hd.
  destruct (uniform_int_distribution gen_equalJitterBackoff 0 (n / 2) w)
    as [d w'].
  cbn [fst] in *. eexists. split; [reflexivity|].
  rewrite to_rep_small
    by (unfold rep_range, INT64_MIN, INT64_MAX, INT_MAX in *; lia).
  lia.
Qed.

End Jitter.

(** Runs of the theorems X16 to X19 on the concrete source. *)
Lemma fullJitter_bounds_witness :
  exists d,
    fst (fullJitter 100 fresh (mkSimWorld 0 [123456] 0)) = Some d
    /\ 0 <= d <= 100.
Proof.
  refine (@fullJitter_bounds SimWorld _ SimWorld_uniform_in_range 100 fresh
            (mkSimWorld 0 [123456] 0) _).
  unfold INT_MAX. lia.
Defined.

Lemma equalJitter_bounds_witness :
  exists d,
    fst (equalJitter 100 fresh (mkSimWorld 0 [123456] 0)) = Some d
    /\ 100 / 2 <= d <= 100.
Proof.
  refine (@equalJitter_bounds SimWorld _ SimWorld_uniform_in_range 100 fresh
            (mkSimWorld 0 [123456] 0) _ _).
  - lia.
  - vm_compute. discriminate.
Defined.

Lemma fullJitterBackoff_bounds_witness :
  exists d,
    fst (fullJitterBackoff 10 (mkRetryStatus 3 70 (Some 40))
           (mkSimWorld 0 [123456] 0)) = Some d
    /\ 0 <= d <= 10 * 2 ^ 3.
Proof.
  refine (@fullJitterBackoff_bounds SimWorld _ SimWorld_uniform_in_range 10
            (mkRetryStatus 3 70 (Some 40)) (mkSimWorld 0 [123456] 0) _ _).
  - simpl. lia.
  - vm_compute. split; discriminate.
Defined.

Lemma equalJitterBackoff_bounds_witness :
  exists d,
    fst (equalJitterBackoff 10 (mkRetryStatus 3 70 (Some 40))
           (mkSimWorld 0 [123456] 0)) = Some d
    /\ 10 * 2 ^ 3 / 2 <= d <= 10 * 2 ^ 3.
Proof.
  refine (@equalJitterBackoff_bounds SimWorld _ SimWorld_uniform_in_range 10
            (mkRetryStatus 3 70 (Some 40)) (mkSimWorld 0 [123456] 0) _ _ _).
  - simpl. lia.
  - vm_compute. split; discriminate.
  - vm_compute. discriminate.
Defined.

(** ** The preemptible coordinator *)

Section Coordinator.
Context {W : Type} `{Environment W}.
Variables before after : RetryPolicy.t W.

(** X20.  When the condition holds and the incoming status was not
    marked as signalled, [applyAndPreemptibleDelay] does not reset
    anything: the second policy is applied, with the sleep, to the
    incoming status itself, iteration number and cumulative delay
    included; the first policy is not evaluated, and the result is
    marked as not signalled. *)
Theorem applyAndPreemptibleDelay_without_signal_keeps_status
  (cond : Probed W -> bool) (status0 : PreemptibleRetryStatus)
  (log : list (nat * RetryStatus)) (w : W) :
  condition_signalled status0 = false ->
  cond (log, w) = true ->
  PreemptibleRetry.applyAndPreemptibleDelay (probed_retry before after)
    cond status0 (log, w) =
  (option_map (fun s => mkPreemptibleRetryStatus s false)
     (fst (RetryPolicy.applyAndDelay after status0 w)),
   (log ++ [(1%nat, retry_status status0)],
    snd (RetryPolicy.applyAndDelay after status0 w))).
Proof.
  intros Hsig Hcond. unfold PreemptibleRetry.applyAndPreemptibleDelay.
  rewrite Hcond, Hsig. unfold bind.
  cbn [PreemptibleRetry.policy_after_ probed_retry].
  rewrite applyAndDelay_probe.
  now destruct (RetryPolicy.applyAndDelay after status0 w) as [[s|] w'].
Qed.

(** X21.  When the condition does not hold, [applyAndPreemptibleDelay]
    evaluates the first policy once, at the incoming status, and never
    the second.  If the first policy stops, the result is stop and
    nothing is waited for.  If it yields a delay [d], the condition
    variable is waited on for [d], nothing is slept, and the result is
    the status [apply] builds, marked with the outcome of the wait. *)
Theorem applyAndPreemptibleDelay_waits_on_condition
  (cond : Probed W -> bool) (status0 : PreemptibleRetryStatus)
  (log : list (nat * RetryStatus)) (w : W) :
  cond (log, w) = false ->
  let log' := log ++ [(0%nat, retry_status status0)] in
  let w1 := snd (before status0 w) in
  (fst (before status0 w) = None ->
     PreemptibleRetry.applyAndPreemptibleDelay (probed_retry before after)
       cond status0 (log, w) = (None, (log', w1)))
  /\ (forall d, fst (before status0 w) = Some d ->
        PreemptibleRetry.applyAndPreemptibleDelay (probed_retry before after)
          cond status0 (log, w) =
        (Some (mkPreemptibleRetryStatus (next_status status0 d)
                 (fst (wait_for d cond (log', w1)))),
         snd (wait_for d cond (log', w1)))).
Proof.
  intros Hcond log' w1. subst log' w1.
  unfold PreemptibleRetry.applyAndPreemptibleDelay. rewrite Hcond.
  unfold bind. cbn [PreemptibleRetry.policy_before_ probed_retry].
  rewrite apply_probe. unfold RetryPolicy.apply, bind, ret.
  destruct (before status0 w) as [[d|] w1]; cbn [fst snd].
  - split; [discriminate|]. intros d' [= <-].
    cbn [previous_delay]. fold (next_status status0 d).
    destruct (wait_for d cond (log ++ [(0%nat, retry_status status0)], w1))
      as [[|] lw']; reflexivity.
  - split; [reflexivity|discriminate].
Qed.

End Coordinator.

(** A run of X20's theorem: the condition found true by a status that
    was not preempted, after five iterations of the first policy; the
    exponential backoff of the second policy starts at [10 * 2^5]. *)
Lemma applyAndPreemptibleDelay_without_signal_keeps_status_witness :
  PreemptibleRetry.applyAndPreemptibleDelay
    (probed_retry (constantDelay 100) (exponentialBackoff 10))
    (fun lw => sim_condition (snd lw))
    (mkPreemptibleRetryStatus (mkRetryStatus 5 500 (Some 100)) false)
    ([], mkSimWorld 50 [] 20)
  = (Some (mkPreemptibleRetryStatus (mkRetryStatus 6 820 (Some 320)) false),
     ([(1%nat, mkRetryStatus 5 500 (Some 100))], mkSimWorld 370 [] 20)).
Proof.
  exact (@applyAndPreemptibleDelay_without_signal_keeps_status SimWorld _
           (constantDelay 100) (exponentialBackoff 10)
           (fun lw => sim_condition (snd lw))
           (mkPreemptibleRetryStatus (mkRetryStatus 5 500 (Some 100)) false)
           [] (mkSimWorld 50 [] 20) eq_refl eq_refl).
Defined.

(** A run of X21's theorem: the condition becomes true at instant 120,
    during the wait of 100 started at instant 50. *)
Lemma applyAndPreemptibleDelay_waits_on_condition_witness :
  PreemptibleRetry.applyAndPreemptibleDelay
    (probed_retry (constantDelay 100) (exponentialBackoff 10))
    (fun lw => sim_condition (snd lw))
    fresh_preemptible ([], mkSimWorld 50 [] 120)
  = (Some (mkPreemptibleRetryStatus (mkRetryStatus 1 100 (Some 100)) true),
     ([(0%nat, fresh)], mkSimWorld 150 [] 120)).
Proof.
  exact (proj2 (@applyAndPreemptibleDelay_waits_on_condition SimWorld _
                  (constantDelay 100) (exponentialBackoff 10)
                  (fun lw => sim_condition (snd lw))
                  fresh_preemptible [] (mkSimWorld 50 [] 120) eq_refl)
           100 eq_refl).
Defined.

Section CoordinatorSimulate.
Context {W : Type} `{Environment W}.
Variable self : PreemptibleRetry.t W.

Lemma simulate_after_decomposes fuel :
  forall st xs w,
    PreemptibleRetry.simulate_after self fuel st xs w =
    (xs ++ with_signal true
             (fst (RetryPolicy.simulate_loop
                     (PreemptibleRetry.policy_after_ self) fuel st [] w)),
     snd (RetryPolicy.simulate_loop
            (PreemptibleRetry.policy_after_ self) fuel st [] w)).
Proof.
  induction fuel as [|fuel IH]; intros st xs w.
  - cbn. now rewrite app_nil_r.
  - cbn [PreemptibleRetry.simulate_after RetryPolicy.simulate_loop].
    unfold bind.
    destruct (RetryPolicy.apply (PreemptibleRetry.policy_after_ self) st w)
      as [[st'|] w1].
    + rewrite IH, (simulate_loop_acc _ fuel st' ([] ++ [st'])).
      cbn [fst snd app with_signal map]. now rewrite <- app_assoc.
    + cbn. now rewrite app_nil_r.
Qed.

Lemma simulate_before_decomposes fuel :
  forall n_after st xs w,
    let r := RetryPolicy.simulate_loop
               (PreemptibleRetry.policy_before_ self) fuel st [] w in
    PreemptibleRetry.simulate_before self fuel n_after st xs w =
    if Nat.eqb (length (fst r)) fuel
    then
      (xs ++ with_signal false (fst r)
          ++ with_signal true
               (fst (RetryPolicy.simulate_loop
                       (PreemptibleRetry.policy_after_ self) n_after fresh []
                       (snd r))),
       snd (RetryPolicy.simulate_loop
              (PreemptibleRetry.policy_after_ self) n_after fresh []
              (snd r)))
    else (xs ++ with_signal false (fst r), snd r).
Proof.
  induction fuel as [|fuel IH]; intros n_after st xs w; cbv zeta.
  - cbn [PreemptibleRetry.simulate_before RetryPolicy.simulate_loop].
    rewrite simulate_after_decomposes. reflexivity.
  - cbn [PreemptibleRetry.simulate_before RetryPolicy.simulate_loop].
    unfold bind.
    destruct (RetryPolicy.apply (PreemptibleRetry.policy_before_ self) st w)
      as [[st'|] w1].
    + rewrite IH, (simulate_loop_acc _ fuel st' ([] ++ [st'])).
      cbn [fst snd app with_signal map length Nat.eqb].
      destruct (Nat.eqb _ fuel); now rewrite <- app_assoc.
    + cbn. now rewrite app_nil_r.
Qed.

(** X22.  [PreemptibleRetry::simulate(n_before, n_after)] yields the
    statuses of the simulation of the first policy, marked as not
    signalled; if that simulation ran its [n_before] steps without a
    stop, they are followed by the statuses of the simulation of the
    second policy from a fresh status, marked as signalled.  If the
    first policy stopped before, the function returns there and the
    second policy is not simulated. *)
Theorem preemptible_simulate_decomposes (n_before n_after : Z) (w : W) :
  let r := RetryPolicy.simulate (PreemptibleRetry.policy_before_ self)
             n_before w in
  let r' := RetryPolicy.simulate (PreemptibleRetry.policy_after_ self)
              n_after (snd r) in
  PreemptibleRetry.simulate self n_before n_after w =
  if Nat.eqb (length (fst r)) (Z.to_nat n_before)
  then (with_signal false (fst r) ++ with_signal true (fst r'), snd r')
  else (with_signal false (fst r), snd r).
Proof.
  cbv zeta. unfold PreemptibleRetry.simulate, RetryPolicy.simulate.
  now rewrite simulate_before_decomposes.
Qed.

(** X23.  While the condition holds in every world, [retry] of the
    coordinator is [retry] of the second policy alone: the first policy
    is never consulted, every status handed to the action and to the
    predicate is marked as not signalled, and results and worlds are the
    same. *)
Theorem preemptible_retry_under_condition (T : Type)
  (cond : W -> bool)
  (shouldRetry : PreemptibleRetryStatus -> T -> Eff W bool)
  (action : PreemptibleRetryStatus -> Eff W T)
  (fuel : nat) (w : W) :
  (forall w', cond w' = true) ->
  PreemptibleRetry.retry self cond shouldRetry action fuel w =
  RetryPolicy.retry (PreemptibleRetry.policy_after_ self)
    (fun st r => shouldRetry (mkPreemptibleRetryStatus st false) r)
    (fun st => action (mkPreemptibleRetryStatus st false))
    fuel w.
Proof.
  intros Hcond. unfold PreemptibleRetry.retry, RetryPolicy.retry.
  unfold fresh_preemptible. generalize fresh as st. revert w.
  induction fuel as [|fuel IH]; intros w st; [reflexivity|].
  cbn [PreemptibleRetry.retry_loop RetryPolicy.retry_loop].
  unfold PreemptibleRetry.retry_round, RetryPolicy.retry_round,
    PreemptibleRetry.applyAndPreemptibleDelay, bind.
  destruct (action (mkPreemptibleRetryStatus st false) w) as [r w1].
  destruct (shouldRetry (mkPreemptibleRetryStatus st false) r w1)
    as [[|] w2]; cbn [negb]; [|reflexivity].
  rewrite Hcond. cbn [condition_signalled retry_status].
  destruct (RetryPolicy.applyAndDelay (PreemptibleRetry.policy_after_ self)
              st w2) as [[st'|] w3]; [|reflexivity].
  unfold ret. apply IH.
Qed.

End CoordinatorSimulate.

(** A run of X23's theorem: the condition always true, [limitRetries(2)]
    as the second policy, an action that answers the iteration number
    and a predicate that always asks to retry. *)
Lemma preemptible_retry_under_condition_witness :
  PreemptibleRetry.retry
    (PreemptibleRetry.mk (constantDelay 100) (limitRetries 2))
    (fun _ => true)
    (fun _ (_ : Z) w => (true, w))
    (fun st w => (iteration_number st, w))
    5 (mkSimWorld 0 [] 0)
  = RetryPolicy.retry (limitRetries 2)
      (fun _ (_ : Z) w => (true, w))
      (fun st w => (iteration_number st, w))
      5 (mkSimWorld 0 [] 0).
Proof.
  exact (@preemptible_retry_under_condition SimWorld _
           (PreemptibleRetry.mk (constantDelay 100) (limitRetries 2)) Z
           (fun _ => true)
           (fun _ _ w => (true, w))
           (fun st w => (iteration_number (retry_status st), w))
           5%nat (mkSimWorld 0 [] 0) (fun _ => eq_refl)).
Defined.

(** ** [decorrelatedJitterBackoff] on its own *)

Section DecorrelatedAlone.
Context {W : Type} `{Environment W}.

(** X24.  Used from a fresh status, [decorrelatedJitterBackoff] never
    retries, alone or combined with any policy on either side: it draws
    nothing, every simulation is empty, and [retry] calls the action
    once and returns its result without sleeping. *)
Theorem decorrelatedJitterBackoff_alone_never_retries
  (base : microseconds) :
  (forall w, decorrelatedJitterBackoff base fresh w = (None, w))
  /\ (forall (P : RetryPolicy.t W) w,
        fst (RetryPolicy.combine (decorrelatedJitterBackoff base) P fresh w)
        = None
        /\ fst (RetryPolicy.combine P (decorrelatedJitterBackoff base)
                  fresh w) = None)
  /\ (forall n w,
        RetryPolicy.simulate (decorrelatedJitterBackoff base) n w = ([], w))
  /\ (forall (T : Type) (shouldRetry : RetryStatus -> T -> Eff W bool)
             (action : RetryStatus -> Eff W T) fuel w,
        RetryPolicy.retry (decorrelatedJitterBackoff base)
          shouldRetry action (S fuel) w =
        (Some (fst (action fresh w)),
         snd (shouldRetry fresh (fst (action fresh w))
                (snd (action fresh w))))).
Proof.
  split; [reflexivity|]. split; [|split].
  - intros P w. unfold RetryPolicy.combine, decorrelatedJitterBackoff, bind.
    cbn [previous_delay fresh]. unfold ret.
    destruct (P fresh w) as [[d|] w1]; now split.
  - intros n w. unfold RetryPolicy.simulate.
    destruct (Z.to_nat n); reflexivity.
  - intros T shouldRetry action fuel w.
    unfold RetryPolicy.retry. cbn [RetryPolicy.retry_loop].
    unfold RetryPolicy.retry_round, bind.
    destruct (action fresh w) as [r w1]. cbn [fst snd].
    destruct (shouldRetry fresh r w1) as [[|] w2]; reflexivity.
Qed.

End DecorrelatedAlone.

(** ** The rendering of a status *)

Section PrintingProps.
Import String Ascii.
Local Open Scope string_scope.

Lemma append_assoc (a b c : string) : (a ++ b) ++ c = a ++ (b ++ c).
Proof. induction a as [|x a IH]; cbn; [reflexivity | now rewrite IH]. Qed.

Lemma append_cancel_l (s a b : string) : s ++ a = s ++ b -> a = b.
Proof. induction s as [|x s IH]; cbn; [easy | intros [= E]; auto]. Qed.

Lemma numeric_split (a : string) :
  forall b c c' r r',
    Printing.numeric a = true -> Printing.numeric b = true ->
    Printing.numeric_char c = false -> Printing.numeric_char c' = false ->
    a ++ String c r = b ++ String c' r' ->
    a = b /\ r = r'.
Proof.
  induction a as [|x a IH]; intros b c c' r r' Ha Hb Hc Hc' E; destruct b as [|y b];
    cbn in *.
  - injection E as _ ->. now split.
  - injection E as -> _. apply andb_prop in Hb. destruct Hb as [Hy _]. congruence.
  - injection E as -> _. apply andb_prop in Ha. destruct Ha as [Hx _]. congruence.
  - injection E as -> E. apply andb_prop in Ha, Hb.
    destruct (IH b c c' r r') as [-> ->]; tauto.
Qed.

Lemma uint_numeric d :
  Printing.numeric (DecimalString.NilEmpty.string_of_uint d) = true.
Proof. induction d; cbn; auto. Qed.

Lemma show_int_numeric z : Printing.numeric (Printing.show_int z) = true.
Proof.
  unfold Printing.show_int, DecimalString.NilZero.string_of_int,
    DecimalString.NilZero.string_of_uint.
  destruct (Z.to_int z) as [d|d]; destruct d; cbn; auto using uint_numeric.
Qed.

Lemma show_int_inj z1 z2 : Printing.show_int z1 = Printing.show_int z2 -> z1 = z2.
Proof.
  unfold Printing.show_int. intros E.
  assert (Hn : forall z, Z.to_int z <> Decimal.Pos Decimal.Nil
                         /\ Z.to_int z <> Decimal.Neg Decimal.Nil).
  { intros [|p|p]; cbn; split; try discriminate;
      intros [= Hp]; now apply (DecimalPos.Unsigned.to_uint_nonnil p). }
  pose proof (DecimalString.NilZero.isi _ (proj1 (Hn z1)) (proj2 (Hn z1))) as E1.
  pose proof (DecimalString.NilZero.isi _ (proj1 (Hn z2)) (proj2 (Hn z2))) as E2.
  rewrite E, E2 in E1. injection E1 as E1.
  rewrite <- (DecimalZ.of_to z1), <- (DecimalZ.of_to z2). now rewrite E1.
Qed.

Lemma show_int_nonempty z : Printing.show_int z <> "".
Proof.
  unfold Printing.show_int, DecimalString.NilZero.string_of_int,
    DecimalString.NilZero.string_of_uint.
  destruct (Z.to_int z) as [d|d]; destruct d; cbn; discriminate.
Qed.

Lemma string_tail_inj c (a b : string) : String c a = String c b -> a = b.
Proof. now intros [= E]. Qed.

Ltac strip_literal E := repeat (apply string_tail_inj in E).

Ltac split_number E c :=
  let En := fresh "En" in
  apply (@numeric_split _ _ c c) in E;
  [destruct E as [En E]; apply show_int_inj in En
  | apply show_int_numeric | apply show_int_numeric
  | reflexivity | reflexivity].

(** X25.  The rendering of a status determines the status: two statuses
    written after the same text give the same text only if they are
    equal, field by field; in particular an absent [previous_delay] is
    never rendered as a present one. *)
Theorem rendering_is_injective (stream : string) (st1 st2 : RetryStatus) :
  Printing.operator_lshift stream st1 = Printing.operator_lshift stream st2 ->
  st1 = st2.
Proof.
  destruct st1 as [i1 c1 p1], st2 as [i2 c2 p2].
  unfold Printing.operator_lshift.
  cbn [iteration_number cumulative_delay previous_delay].
  intros E.
  destruct p1 as [d1|], p2 as [d2|];
    rewrite !append_assoc in E; apply append_cancel_l in E;
    cbn [append] in E; strip_literal E;
    split_number E ","%char; strip_literal E;
    split_number E "u"%char; strip_literal E.
  - split_number E "u"%char. now subst.
  - exfalso.
    apply (@numeric_split _ "" "u"%char "n"%char) in E;
      [destruct E as [E _]; now apply show_int_nonempty in E
      | apply show_int_numeric | reflexivity | reflexivity | reflexivity].
  - exfalso. symmetry in E.
    apply (@numeric_split _ "" "u"%char "n"%char) in E;
      [destruct E as [E _]; now apply show_int_nonempty in E
      | apply show_int_numeric | reflexivity | reflexivity | reflexivity].
  - now subst.
Qed.
End PrintingProps.

(** A run of X25's theorem: the status [apply] builds from the fresh
    status and a delay of 100, and the same status written out. *)
Lemma rendering_is_injective_witness :
  next_status fresh 100 = mkRetryStatus 1 100 (Some 100).
Proof.
  exact (@rendering_is_injective String.EmptyString
           (next_status fresh 100) (mkRetryStatus 1 100 (Some 100)) eq_refl).
Defined.
